(** * The spatial map: entity snapshots and the 3D scene

    A shallow embedding of [quantum_console/static/js/spatial_map.js]:
    the [SpatialMap] methods that rebuild the scene from a snapshot of
    entities, and the WebSocket message handler that feeds it.

    JavaScript values are modelled as far as the file touches them:
    - strings are sequences of UTF-16 code units;
    - numbers are kept as the exact decimal [m * 10^e] their literal
      denotes (the program only copies and prints them, it never computes
      with them, so rounding to binary64 and its overflow are not
      represented);
    - objects from [JSON.parse] are ordered property lists;
    - an exception is a [Throw] completion carried next to the state the
      program had reached when it was raised. *)

From Stdlib Require Import List ZArith NArith Ascii String Bool Lia.
From Stdlib Require Import DecimalString.
Import ListNotations.

#[local] Set Warnings "-register-all".

(** ** Strings *)

Definition jsstring : Type := list N.

Definition js (s : string) : jsstring :=
  map N_of_ascii (list_ascii_of_string s).

Fixpoint str_eqb (a b : jsstring) : bool :=
  match a, b with
  | [], [] => true
  | x :: a', y :: b' => N.eqb x y && str_eqb a' b'
  | _, _ => false
  end.

Definition is_char (c : N) (a : ascii) : bool := N.eqb c (N_of_ascii a).

Definition quote : N := 34.
Definition backslash : N := 92.

(** ** Numbers *)

Record number : Type := Num { mantissa : Z; exponent10 : Z }.

Definition int_literal (z : Z) : number := Num z 0.

Definition number_is_zero (n : number) : bool := Z.eqb (mantissa n) 0.

Definition digits_of_pos (p : positive) : jsstring :=
  js (NilEmpty.string_of_uint (Pos.to_uint p)).

Definition digits_of_Z (z : Z) : jsstring :=
  match z with
  | Z0 => js "0"
  | Zpos p => digits_of_pos p
  | Zneg p => js "-" ++ digits_of_pos p
  end.

Fixpoint strip_leading_zeros (l : jsstring) : jsstring :=
  match l with
  | c :: l' => if is_char c "0" then strip_leading_zeros l' else l
  | [] => []
  end.

Definition strip_trailing_zeros (l : jsstring) : jsstring :=
  rev (strip_leading_zeros (rev l)).

Definition zeros (n : nat) : jsstring := repeat (N_of_ascii "0") n.

Definition exponent_suffix (e : Z) : jsstring :=
  js "e" ++ (if Z.ltb e 0 then js "-" else js "+") ++ digits_of_Z (Z.abs e).

(** [Number::toString] (radix 10) on the exact decimal: with [s] the digits
    without trailing zeros, [k] their count and [n] the position of the
    decimal point, the four layouts of ECMA-262. *)
Definition Number_toString (x : number) : jsstring :=
  match mantissa x with
  | Z0 => js "0"
  | Zpos p | Zneg p =>
    let all := digits_of_pos p in
    let s := strip_trailing_zeros all in
    let k := Z.of_nat (List.length s) in
    let n := (Z.of_nat (List.length all) + exponent10 x)%Z in
    let sign := if Z.ltb (mantissa x) 0 then js "-" else [] in
    sign ++
    (if (k <=? n)%Z && (n <=? 21)%Z then
       s ++ zeros (Z.to_nat (n - k))
     else if (0 <? n)%Z && (n <=? 21)%Z then
       firstn (Z.to_nat n) s ++ js "." ++ skipn (Z.to_nat n) s
     else if (-6 <? n)%Z && (n <=? 0)%Z then
       js "0." ++ zeros (Z.to_nat (- n)) ++ s
     else
       match s with
       | [d] => [d] ++ exponent_suffix (n - 1)
       | d :: ds => [d] ++ js "." ++ ds ++ exponent_suffix (n - 1)
       | [] => []
       end)
  end.

(** ** Values *)

Inductive value : Type :=
| VUndefined
| VNull
| VBool (b : bool)
| VNum (n : number)
| VStr (s : jsstring)
| VArr (elems : list value)
| VObj (props : list (jsstring * value)).

Inductive error : Type := SyntaxError | TypeError.

Inductive completion (A : Type) : Type :=
| Normal (a : A)
| Throw (e : error).

Arguments Normal {A} a.
Arguments Throw {A} e.

(** Own properties of an object built by [JSON.parse]. *)
Fixpoint own_property (props : list (jsstring * value)) (k : jsstring)
  : option value :=
  match props with
  | [] => None
  | (k', v) :: rest => if str_eqb k' k then Some v else own_property rest k
  end.

(** [CreateDataProperty]: a repeated key keeps its place and takes the
    later value. *)
Fixpoint define_property (props : list (jsstring * value)) (k : jsstring)
  (v : value) : list (jsstring * value) :=
  match props with
  | [] => [(k, v)]
  | (k', v') :: rest =>
    if str_eqb k' k then (k', v) :: rest
    else (k', v') :: define_property rest k v
  end.

(** ** JSON.parse

    A recursive-descent reader of the JSON grammar. [fuel] bounds the
    number of nested calls; [JSON.parse] supplies enough of it for any
    text (lemma [JSON_parse_fuel] below). *)

Module JSON.

Inductive parsed (A : Type) : Type :=
| Parsed (a : A) (rest : jsstring)
| Malformed
| OutOfFuel.

Arguments Parsed {A} a rest.
Arguments Malformed {A}.
Arguments OutOfFuel {A}.

Definition is_ws (c : N) : bool :=
  N.eqb c 32 || N.eqb c 9 || N.eqb c 10 || N.eqb c 13.

Fixpoint skip_ws (s : jsstring) : jsstring :=
  match s with
  | c :: t => if is_ws c then skip_ws t else s
  | [] => []
  end.

Definition is_digit (c : N) : bool := N.leb 48 c && N.leb c 57.

Fixpoint take_digits (s : jsstring) : jsstring * jsstring :=
  match s with
  | c :: t =>
    if is_digit c then let (ds, r) := take_digits t in (c :: ds, r)
    else ([], s)
  | [] => ([], [])
  end.

Fixpoint Z_of_digits (acc : Z) (ds : jsstring) : Z :=
  match ds with
  | [] => acc
  | c :: t => Z_of_digits (10 * acc + Z.of_N (c - 48))%Z t
  end.

Definition hex_digit (c : N) : option N :=
  if is_digit c then Some (c - 48)%N
  else if N.leb 97 c && N.leb c 102 then Some (c - 87)%N
  else if N.leb 65 c && N.leb c 70 then Some (c - 55)%N
  else None.

Definition hex4 (a b c d : N) : option N :=
  match hex_digit a, hex_digit b, hex_digit c, hex_digit d with
  | Some x, Some y, Some z, Some w =>
    Some (((x * 16 + y) * 16 + z) * 16 + w)%N
  | _, _, _, _ => None
  end.

Definition simple_escape (e : N) : option N :=
  if N.eqb e quote then Some quote
  else if N.eqb e backslash then Some backslash
  else if is_char e "/" then Some 47%N
  else if is_char e "b" then Some 8%N
  else if is_char e "f" then Some 12%N
  else if is_char e "n" then Some 10%N
  else if is_char e "r" then Some 13%N
  else if is_char e "t" then Some 9%N
  else None.

Definition prepend (c : N) (r : option (jsstring * jsstring))
  : option (jsstring * jsstring) :=
  match r with
  | Some (str, rest) => Some (c :: str, rest)
  | None => None
  end.

(** The characters of a string literal after its opening quote. *)
Fixpoint parse_string_body (s : jsstring) : option (jsstring * jsstring) :=
  match s with
  | [] => None
  | c :: t =>
    if N.eqb c quote then Some ([], t)
    else if N.eqb c backslash then
      match t with
      | e :: t' =>
        if is_char e "u" then
          match t' with
          | h1 :: h2 :: h3 :: h4 :: t'' =>
            match hex4 h1 h2 h3 h4 with
            | Some u => prepend u (parse_string_body t'')
            | None => None
            end
          | _ => None
          end
        else
          match simple_escape e with
          | Some u => prepend u (parse_string_body t')
          | None => None
          end
      | [] => None
      end
    else if N.ltb c 32 then None
    else prepend c (parse_string_body t)
  end.

Definition parse_fraction (s : jsstring) : option (jsstring * jsstring) :=
  match s with
  | c :: t =>
    if is_char c "." then
      match take_digits t with
      | ([], _) => None
      | (ds, r) => Some (ds, r)
      end
    else Some ([], s)
  | [] => Some ([], [])
  end.

Definition parse_exponent (s : jsstring) : option (Z * jsstring) :=
  match s with
  | c :: t =>
    if is_char c "e" || is_char c "E" then
      let (negative, t') :=
        match t with
        | sg :: u =>
          if is_char sg "-" then (true, u)
          else if is_char sg "+" then (false, u)
          else (false, t)
        | [] => (false, t)
        end in
      match take_digits t' with
      | ([], _) => None
      | (ds, r) =>
        Some ((if negative then - Z_of_digits 0 ds else Z_of_digits 0 ds)%Z, r)
      end
    else Some (0%Z, s)
  | [] => Some (0%Z, [])
  end.

Definition parse_number (s : jsstring) : option (number * jsstring) :=
  let (negative, s1) :=
    match s with
    | c :: t => if is_char c "-" then (true, t) else (false, s)
    | [] => (false, s)
    end in
  match s1 with
  | c :: t =>
    if is_digit c then
      let (int_digits, s2) :=
        if is_char c "0" then ([c], t) else take_digits s1 in
      match parse_fraction s2 with
      | Some (frac_digits, s3) =>
        match parse_exponent s3 with
        | Some (e, s4) =>
          let m := Z_of_digits 0 (int_digits ++ frac_digits) in
          Some (Num (if negative then - m else m)
                    (e - Z.of_nat (List.length frac_digits)), s4)
        | None => None
        end
      | None => None
      end
    else None
  | [] => None
  end.

Fixpoint strip_prefix (p s : jsstring) : option jsstring :=
  match p, s with
  | [], _ => Some s
  | x :: p', y :: s' => if N.eqb x y then strip_prefix p' s' else None
  | _ :: _, [] => None
  end.

Definition parse_keyword (word : string) (v : value) (s : jsstring)
  : parsed value :=
  match strip_prefix (js word) s with
  | Some rest => Parsed v rest
  | None => Malformed
  end.

Fixpoint parse_value (fuel : nat) (s : jsstring) : parsed value :=
  match fuel with
  | O => OutOfFuel
  | S fuel' =>
    match skip_ws s with
    | [] => Malformed
    | c :: t =>
      if is_char c "{" then
        match skip_ws t with
        | c' :: t' =>
          if is_char c' "}" then Parsed (VObj []) t'
          else parse_members fuel' t []
        | [] => Malformed
        end
      else if is_char c "[" then
        match skip_ws t with
        | c' :: t' =>
          if is_char c' "]" then Parsed (VArr []) t'
          else parse_elements fuel' t []
        | [] => Malformed
        end
      else if N.eqb c quote then
        match parse_string_body t with
        | Some (str, rest) => Parsed (VStr str) rest
        | None => Malformed
        end
      else if is_char c "t" then parse_keyword "true" (VBool true) (c :: t)
      else if is_char c "f" then parse_keyword "false" (VBool false) (c :: t)
      else if is_char c "n" then parse_keyword "null" VNull (c :: t)
      else
        match parse_number (c :: t) with
        | Some (n, rest) => Parsed (VNum n) rest
        | None => Malformed
        end
    end
  end
with parse_elements (fuel : nat) (s : jsstring) (acc : list value)
  : parsed value :=
  match fuel with
  | O => OutOfFuel
  | S fuel' =>
    match parse_value fuel' s with
    | Parsed v r =>
      match skip_ws r with
      | c :: t =>
        if is_char c "," then parse_elements fuel' t (v :: acc)
        else if is_char c "]" then Parsed (VArr (rev (v :: acc))) t
        else Malformed
      | [] => Malformed
      end
    | Malformed => Malformed
    | OutOfFuel => OutOfFuel
    end
  end
with parse_members (fuel : nat) (s : jsstring)
  (acc : list (jsstring * value)) : parsed value :=
  match fuel with
  | O => OutOfFuel
  | S fuel' =>
    match skip_ws s with
    | c :: t =>
      if N.eqb c quote then
        match parse_string_body t with
        | Some (k, r) =>
          match skip_ws r with
          | c2 :: t2 =>
            if is_char c2 ":" then
              match parse_value fuel' t2 with
              | Parsed v r2 =>
                match skip_ws r2 with
                | c3 :: t3 =>
                  if is_char c3 "," then
                    parse_members fuel' t3 (define_property acc k v)
                  else if is_char c3 "}" then
                    Parsed (VObj (define_property acc k v)) t3
                  else Malformed
                | [] => Malformed
                end
              | Malformed => Malformed
              | OutOfFuel => OutOfFuel
              end
            else Malformed
          | [] => Malformed
          end
        | None => Malformed
        end
      else Malformed
    | [] => Malformed
    end
  end.

(** [JSON.parse(text)]: one value, surrounded by optional white space. *)
Definition parse (text : jsstring) : completion value :=
  match parse_value (2 * List.length text + 1) text with
  | Parsed v rest =>
    match skip_ws rest with
    | [] => Normal v
    | _ :: _ => Throw SyntaxError
    end
  | Malformed | OutOfFuel => Throw SyntaxError
  end.

End JSON.

Import JSON.

(** JSON text written with ['] where the wire has the double quote. *)
Definition wire (s : string) : jsstring :=
  map (fun c => if is_char c "'" then quote else c) (js s).

(** ** Property reads and conversions *)

(** What reading a property of an ordinary object can yield: plain data,
    or one of the built-in functions and objects that every object
    inherits from [Object.prototype]. *)
Inductive property_value : Type :=
| Data (v : value)
| Builtin (name : jsstring).

Definition Object_prototype : list (jsstring * jsstring) :=
  map (fun n => (js n, js ("Object.prototype." ++ n)))
    ["constructor"; "hasOwnProperty"; "isPrototypeOf";
     "propertyIsEnumerable"; "toLocaleString"; "toString"; "valueOf";
     "__proto__"; "__defineGetter__"; "__defineSetter__";
     "__lookupGetter__"; "__lookupSetter__"]%string.

Fixpoint inherited (table : list (jsstring * jsstring)) (k : jsstring)
  : option jsstring :=
  match table with
  | [] => None
  | (k', b) :: rest => if str_eqb k' k then Some b else inherited rest k
  end.

(** [o[k]] on an object literal: own properties first, then the
    prototype chain, which for a literal is [Object.prototype] alone. *)
Definition Get (props : list (jsstring * value)) (k : jsstring)
  : property_value :=
  match own_property props k with
  | Some v => Data v
  | None =>
    match inherited Object_prototype k with
    | Some b => Builtin b
    | None => Data VUndefined
    end
  end.

(** [v.name] for the names this file reads with a fixed identifier
    ([type], [entities], [status], [coordinates], [x], [y], [z]). None of
    them is defined on a built-in prototype, is an array index or is
    [length], so only an object's own property can answer; reading from
    [undefined] or [null] is a [TypeError]. *)
Definition get_member (v : value) (name : string) : completion value :=
  match v with
  | VUndefined | VNull => Throw TypeError
  | VObj props =>
    match own_property props (js name) with
    | Some p => Normal p
    | None => Normal VUndefined
    end
  | VBool _ | VNum _ | VStr _ | VArr _ => Normal VUndefined
  end.

Fixpoint join (parts : list (completion jsstring)) : completion jsstring :=
  match parts with
  | [] => Normal []
  | Throw e :: _ => Throw e
  | Normal p :: rest =>
    match rest with
    | [] => Normal p
    | _ :: _ =>
      match join rest with
      | Normal r => Normal (p ++ js "," ++ r)
      | Throw e => Throw e
      end
    end
  end.

(** [ToString], which is [ToPropertyKey] on these values. An array
    prints as its elements joined by commas, [undefined] and [null]
    elements as nothing. An object prints through the inherited
    [toString] unless an own property of that name, which is never
    callable in parsed JSON, shadows it: then no conversion is left and
    the result is a [TypeError]. *)
Fixpoint ToString (v : value) : completion jsstring :=
  match v with
  | VUndefined => Normal (js "undefined")
  | VNull => Normal (js "null")
  | VBool true => Normal (js "true")
  | VBool false => Normal (js "false")
  | VNum n => Normal (Number_toString n)
  | VStr s => Normal s
  | VArr elems =>
    join (map (fun e =>
                 match e with
                 | VUndefined | VNull => Normal []
                 | _ => ToString e
                 end) elems)
  | VObj props =>
    match own_property props (js "toString") with
    | None => Normal (js "[object Object]")
    | Some _ => Throw TypeError
    end
  end.

Definition ToBoolean (p : property_value) : bool :=
  match p with
  | Data VUndefined | Data VNull => false
  | Data (VBool b) => b
  | Data (VNum n) => negb (number_is_zero n)
  | Data (VStr s) => match s with [] => false | _ :: _ => true end
  | Data (VArr _) | Data (VObj _) => true
  | Builtin _ => true
  end.

(** [a === 'literal'] *)
Definition strict_equals_string (a : value) (literal : string) : bool :=
  match a with
  | VStr s => str_eqb s (js literal)
  | _ => false
  end.

(** ** The rendering engine, as far as the file drives it *)

Module THREE.

Record Vector3 : Type := { x : value; y : value; z : value }.

(** Every [Object3D] is a distinct object; [ref] names it by the order
    of creation. For a mesh [color] is the color its material was
    constructed with, for a light the light's color. The sphere geometry
    is the same constant for every mesh and is not represented. *)
Record Object3D : Type := {
  ref : nat;
  type : jsstring;
  position : Vector3;
  color : property_value
}.

Definition origin : Vector3 :=
  {| x := VNum (int_literal 0); y := VNum (int_literal 0);
     z := VNum (int_literal 0) |}.

(** [Vector3.set(x, y, z)]; a missing [z] leaves the component alone. *)
Definition Vector3_set (v : Vector3) (x' y' z' : value) : Vector3 :=
  {| x := x'; y := y';
     z := match z' with VUndefined => z v | _ => z' end |}.

Definition set_position (o : Object3D) (p : Vector3) : Object3D :=
  {| ref := ref o; type := type o; position := p; color := color o |}.

End THREE.

Import THREE.

(** ** State and exceptions *)

(** [children] is [this.scene.children]; [allocated] counts the
    [Object3D]s created so far and supplies the next [ref]. *)
Record world : Type := {
  children : list Object3D;
  allocated : nat
}.

Definition M (A : Type) : Type := world -> completion A * world.

Definition ret {A} (a : A) : M A := fun w => (Normal a, w).

Definition throw {A} (e : error) : M A := fun w => (Throw e, w).

Definition bind {A B} (m : M A) (k : A -> M B) : M B :=
  fun w =>
    match m w with
    | (Normal a, w') => k a w'
    | (Throw e, w') => (Throw e, w')
    end.

Definition lift {A} (c : completion A) : M A := fun w => (c, w).

Declare Scope js_scope.
Delimit Scope js_scope with js.
Notation "x <- m ;; k" := (bind m (fun x => k))
  (at level 61, m at next level, right associativity) : js_scope.
Notation "m ;; k" := (bind m (fun _ => k))
  (at level 61, right associativity) : js_scope.
Open Scope js_scope.

(** [new THREE.X(...)] for an [Object3D] subclass. *)
Definition new_Object3D (ty : string) (p : Vector3) (c : property_value)
  : M Object3D :=
  fun w =>
    (Normal {| ref := allocated w; type := js ty; position := p; color := c |},
     {| children := children w; allocated := S (allocated w) |}).

(** [this.scene.add(object)] for an object that has no parent yet. *)
Definition scene_add (o : Object3D) : M unit :=
  fun w =>
    (Normal tt, {| children := children w ++ [o]; allocated := allocated w |}).

(** [array.forEach(callback)] on the elements of an array *)
Fixpoint forEach (callback : value -> M unit) (elems : list value) : M unit :=
  match elems with
  | [] => ret tt
  | e :: rest => callback e ;; forEach callback rest
  end.

(** ** SpatialMap *)

(** [new THREE.Scene()], before anything else exists. *)
Definition empty_scene : world := {| children := []; allocated := 0 |}.

Module SpatialMap.

(** The lights that [init] adds; renderer, camera and the animation loop
    hold no entity state and are left out. *)
Definition init : M unit :=
  (* Add lights *)
  ambientLight <-
    new_Object3D "AmbientLight" origin (Data (VNum (int_literal 0x404040))) ;;
  directionalLight <-
    new_Object3D "DirectionalLight"
      {| x := VNum (int_literal 0); y := VNum (int_literal 1);
         z := VNum (int_literal 0) |}
      (Data (VNum (int_literal 0xffffff))) ;;
  scene_add ambientLight ;;
  scene_add directionalLight.

Definition is_Mesh (child : Object3D) : bool :=
  str_eqb (type child) (js "Mesh").

Definition clearEntities : M unit :=
  fun w =>
    (Normal tt,
     {| children := filter (fun child => negb (is_Mesh child)) (children w);
        allocated := allocated w |}).

Definition colors : list (jsstring * value) :=
  [ (js "active", VNum (int_literal 0x00ff00));
    (js "idle", VNum (int_literal 0xffff00));
    (js "alert", VNum (int_literal 0xff0000)) ].

Definition getEntityColor (status : value) : completion property_value :=
  match ToString status with
  | Normal key =>
    let found := Get colors key in
    Normal (if ToBoolean found then found
            else Data (VNum (int_literal 0x808080)))
  | Throw e => Throw e
  end.

Definition createEntityMesh (entity : value) : M Object3D :=
  status <- lift (get_member entity "status") ;;
  color <- lift (getEntityColor status) ;;
  mesh <- new_Object3D "Mesh" origin color ;;
  cx <- lift (get_member entity "coordinates") ;;
  x <- lift (get_member cx "x") ;;
  cy <- lift (get_member entity "coordinates") ;;
  y <- lift (get_member cy "y") ;;
  cz <- lift (get_member entity "coordinates") ;;
  z <- lift (get_member cz "z") ;;
  ret (set_position mesh (Vector3_set (position mesh) x y z)).

(** [entities.forEach] exists only when [entities] is an array: on
    [undefined] and [null] the read fails, on other data the property is
    missing or not callable. *)
Definition updateEntities (entities : value) : M unit :=
  (* Clear existing entities *)
  clearEntities ;;
  (* Add new entities *)
  match entities with
  | VArr elems =>
    forEach (fun entity =>
               mesh <- createEntityMesh entity ;;
               scene_add mesh) elems
  | _ => throw TypeError
  end.

End SpatialMap.

Import SpatialMap.

(** ** The message handler *)

(** [socket.onmessage], given [event.data] of a text frame. *)
Definition onmessage (event_data : jsstring) : M unit :=
  data <- lift (JSON.parse event_data) ;;
  type <- lift (get_member data "type") ;;
  if strict_equals_string type "entity_update" then
    entities <- lift (get_member data "entities") ;;
    SpatialMap.updateEntities entities
  else ret tt.

(** The page: the map built on [DOMContentLoaded], the socket, and the
    exceptions that left a handler uncaught. The browser reports such an
    exception and goes on; the socket is not affected. *)
Inductive ready_state : Type := CONNECTING | OPEN | CLOSING | CLOSED.

Record page : Type := {
  map_state : world;
  socket : ready_state;
  uncaught : list error
}.

Definition DOMContentLoaded : page :=
  {| map_state := snd (SpatialMap.init empty_scene); socket := CONNECTING;
     uncaught := [] |}.

Definition dispatch_message (event_data : jsstring) (p : page) : page :=
  match onmessage event_data (map_state p) with
  | (Normal _, w) =>
    {| map_state := w; socket := socket p; uncaught := uncaught p |}
  | (Throw e, w) =>
    {| map_state := w; socket := socket p; uncaught := uncaught p ++ [e] |}
  end.

(** ** What is observed of a scene *)

(** The scene once the constructor has run. *)
Definition initial : world := snd (SpatialMap.init empty_scene).

Definition meshes (w : world) : list Object3D := filter is_Mesh (children w).

Definition others (w : world) : list Object3D :=
  filter (fun child => negb (is_Mesh child)) (children w).

(** Position and color: what a Scene Object shows, apart from which
    object it is. *)
Definition appearance (o : Object3D) : Vector3 * property_value :=
  (position o, color o).

(** Every object in the scene was created through [new_Object3D]. *)
Definition refs_allocated (w : world) : Prop :=
  Forall (fun o => ref o < allocated w) (children w).

(** The objects of [before] that are no longer in [after], by identity,
    and the objects of [after] that were not in [before]. *)
Definition detached (before after : world) : list Object3D :=
  filter (fun o => negb (existsb (fun o' => Nat.eqb (ref o') (ref o))
                                 (children after)))
         (children before).

Definition attached (before after : world) : list Object3D :=
  detached after before.

(** ** Entities and snapshots *)

(** An entity as the wire format describes it: an object with numeric
    [coordinates.x], [.y], [.z] and a string [status]; a snapshot is a
    sequence of them. *)
Definition is_number (v : value) : bool :=
  match v with VNum _ => true | _ => false end.

Definition is_entity (e : value) : bool :=
  match e with
  | VObj props =>
    match own_property props (js "coordinates"),
          own_property props (js "status") with
    | Some (VObj c), Some (VStr _) =>
      match own_property c (js "x"), own_property c (js "y"),
            own_property c (js "z") with
      | Some vx, Some vy, Some vz =>
        is_number vx && is_number vy && is_number vz
      | _, _, _ => false
      end
    | _, _ => false
    end
  | _ => false
  end.

Definition is_snapshot (s : list value) : Prop := forallb is_entity s = true.

(** The fields of an entity; [undefined] where there is none. *)
Definition member (v : value) (name : string) : value :=
  match get_member v name with
  | Normal p => p
  | Throw _ => VUndefined
  end.

Definition entity_id (e : value) : value := member e "id".

Definition entity_coordinates (e : value) : Vector3 :=
  let c := member e "coordinates" in
  {| x := member c "x"; y := member c "y"; z := member c "z" |}.

Definition entity_color (e : value) : property_value :=
  match getEntityColor (member e "status") with
  | Normal c => c
  | Throw _ => Data VUndefined
  end.

Definition gray : property_value := Data (VNum (int_literal 0x808080)).

Definition sample_entity (id : string) (px py pz : Z) (status : string)
  : value :=
  VObj [ (js "id", VStr (js id));
         (js "coordinates",
          VObj [ (js "x", VNum (int_literal px));
                 (js "y", VNum (int_literal py));
                 (js "z", VNum (int_literal pz)) ]);
         (js "status", VStr (js status)) ].

(** A sequence of snapshots, applied one after the other. *)
Fixpoint apply_snapshots (snapshots : list (list value)) : M unit :=
  match snapshots with
  | [] => ret tt
  | s :: rest => updateEntities (VArr s) ;; apply_snapshots rest
  end.

(** ** An update, read as a function of its argument *)

(** What [createEntityMesh] makes of an entity, read off a run in the
    empty scene: the look of the mesh or the exception, and the number
    of objects created on the way. *)
Definition entity_look (e : value) : completion (Vector3 * property_value) :=
  match fst (createEntityMesh e empty_scene) with
  | Normal m => Normal (appearance m)
  | Throw er => Throw er
  end.

Definition entity_allocations (e : value) : nat :=
  allocated (snd (createEntityMesh e empty_scene)).

(** The callback that [updateEntities] hands to [forEach]. *)
Definition add_entity (entity : value) : M unit :=
  mesh <- createEntityMesh entity ;; scene_add mesh.

Definition new_Mesh (r : nat) (a : Vector3 * property_value) : Object3D :=
  {| ref := r; type := js "Mesh"; position := fst a; color := snd a |}.

(** The meshes a [forEach] over [es] adds when the next free [ref] is
    [next], up to the first entity that raises; their looks; how the
    loop completes; and the number of objects it creates. *)
Fixpoint new_meshes (next : nat) (es : list value) : list Object3D :=
  match es with
  | [] => []
  | e :: rest =>
    match entity_look e with
    | Normal a => new_Mesh next a :: new_meshes (S next) rest
    | Throw _ => []
    end
  end.

Fixpoint looks (es : list value) : list (Vector3 * property_value) :=
  match es with
  | [] => []
  | e :: rest =>
    match entity_look e with
    | Normal a => a :: looks rest
    | Throw _ => []
    end
  end.

Fixpoint outcome (es : list value) : completion unit :=
  match es with
  | [] => Normal tt
  | e :: rest =>
    match entity_look e with
    | Normal _ => outcome rest
    | Throw er => Throw er
    end
  end.

Fixpoint allocations (es : list value) : nat :=
  match es with
  | [] => 0
  | e :: rest =>
    match entity_look e with
    | Normal _ => entity_allocations e + allocations rest
    | Throw _ => entity_allocations e
    end
  end.

(** ** The properties in question *)

(** The Scene Object [m] stands for the entity [e]. *)
Definition placed_at (e : value) (m : Object3D) : Prop :=
  is_Mesh m = true /\ position m = entity_coordinates e.

(** The scene [after] shows exactly the snapshot [latest]: one mesh per
    entity, in order, each a different object, and none of the meshes
    that were in the scene [before]. *)
Definition scene_shows (latest : list value) (before after : world) : Prop :=
  Forall2 placed_at latest (meshes after) /\
  NoDup (map ref (meshes after)) /\
  (forall o, In o (meshes before) -> ~ In o (children after)) /\
  (latest = [] -> meshes after = []).

(** In-place update, as a property of two consecutive snapshots [a] and
    [b] applied to [w]: an entity whose identifier is in both, with
    different fields, keeps the object that stood for it and that object
    carries the new position and color. *)
Definition updated_in_place (a b : list value) (w : world) : Prop :=
  let w1 := snd (updateEntities (VArr a) w) in
  let w2 := snd (updateEntities (VArr b) w1) in
  forall i j ea eb,
    nth_error a i = Some ea -> nth_error b j = Some eb ->
    entity_id ea = entity_id eb -> ea <> eb ->
    exists m1 m2,
      nth_error (meshes w1) i = Some m1 /\
      nth_error (meshes w2) j = Some m2 /\
      ref m2 = ref m1 /\
      position m2 = entity_coordinates eb /\
      color m2 = entity_color eb.

(** No churn, as a property of a snapshot [a] applied twice to [w]: the
    second application detaches nothing, attaches nothing and leaves the
    children of the scene as they were. *)
Definition no_churn (a : list value) (w : world) : Prop :=
  let w1 := snd (updateEntities (VArr a) w) in
  let w2 := snd (updateEntities (VArr a) w1) in
  detached w1 w2 = [] /\ attached w1 w2 = [] /\ children w2 = children w1.

(** An unknown status classified like [idle]. *)
Definition treated_as_idle (status : value) : Prop :=
  getEntityColor status = getEntityColor (VStr (js "idle")).

(** A message is malformed when it does not parse, or parses to a value
    without a [type] field. *)
Definition has_type_field (v : value) : bool :=
  match v with
  | VObj props =>
    match own_property props (js "type") with
    | Some _ => true
    | None => false
    end
  | _ => false
  end.

Definition malformed (event_data : jsstring) : Prop :=
  match JSON.parse event_data with
  | Throw _ => True
  | Normal v => has_type_field v = false
  end.

(** Dropped silently: the map, the socket and the list of uncaught
    exceptions are all as before. *)
Definition dropped_silently (event_data : jsstring) (p : page) : Prop :=
  dispatch_message event_data p = p.

(** ** Further notions *)

(** Every object of the scene was created by the engine and is in the
    scene once. *)
Definition scene_well_formed (w : world) : Prop :=
  refs_allocated w /\ NoDup (map ref (children w)).

Definition is_array (v : value) : bool :=
  match v with VArr _ => true | _ => false end.

(** A status that is a primitive value other than a string. *)
Definition is_plain_non_string (v : value) : bool :=
  match v with
  | VUndefined | VNull | VBool _ | VNum _ => true
  | VStr _ | VArr _ | VObj _ => false
  end.

(** The characters a printed number is made of. *)
Definition number_char (c : N) : bool :=
  is_digit c || is_char c "." || is_char c "-" || is_char c "+"
  || is_char c "e".

(** Two entities that agree on the two fields [createEntityMesh] reads. *)
Definition same_fields_read (e1 e2 : value) : Prop :=
  get_member e1 "status" = get_member e2 "status" /\
  get_member e1 "coordinates" = get_member e2 "coordinates".

(** Messages delivered one after the other. *)
Fixpoint dispatch_all (messages : list jsstring) (p : page) : page :=
  match messages with
  | [] => p
  | m :: rest => dispatch_all rest (dispatch_message m p)
  end.

(** * Properties *)

(** ** Sample runs *)

Example parse_update_message :
  JSON.parse (wire "{'type': 'entity_update', 'entities': [{'status': 'idle'}]}")
  = Normal (VObj [ (js "type", VStr (js "entity_update"));
                   (js "entities",
                    VArr [VObj [(js "status", VStr (js "idle"))]]) ]).
Proof. reflexivity. Qed.

Example parse_rejects_trailing_comma :
  JSON.parse (wire "{'type': 'entity_update',}") = Throw SyntaxError.
Proof. reflexivity. Qed.

Example update_message_builds_meshes :
  let message :=
    wire ("{'type': 'entity_update', 'entities': [" ++
          "{'id': 'e1', 'coordinates': {'x': 1.5, 'y': -2, 'z': 0}," ++
          " 'status': 'alert'}]}") in
  fst (onmessage message initial) = Normal tt /\
  map appearance (meshes (snd (onmessage message initial))) =
    [ ({| x := VNum (Num 15 (-1)); y := VNum (Num (-2) 0);
          z := VNum (Num 0 0) |},
       Data (VNum (int_literal 0xff0000))) ].
Proof. split; reflexivity. Qed.

(** An update whose [entities] is missing has already cleared the scene
    when the [TypeError] is raised. *)
Example update_without_entities_clears :
  let shown := snd (updateEntities (VArr [sample_entity "e1" 0 0 0 "idle"])
                                   initial) in
  List.length (meshes shown) = 1 /\
  fst (onmessage (wire "{'type': 'entity_update'}") shown) = Throw TypeError /\
  meshes (snd (onmessage (wire "{'type': 'entity_update'}") shown)) = [].
Proof. repeat split. Qed.

(** ** Strings *)

Lemma str_eqb_eq (a b : jsstring) : str_eqb a b = true <-> a = b.
Proof.
  revert b; induction a as [|x a IH]; intros [|y b]; simpl;
    try (split; [discriminate | congruence]); [tauto |].
  rewrite andb_true_iff, N.eqb_eq, IH.
  split; [intros [-> ->]; reflexivity | intros [= -> ->]; auto].
Qed.

Lemma str_eqb_refl (a : jsstring) : str_eqb a a = true.
Proof. apply str_eqb_eq; reflexivity. Qed.

Lemma str_eqb_neq (a b : jsstring) : a <> b -> str_eqb a b = false.
Proof.
  intros H; destruct (str_eqb a b) eqn:E; [|reflexivity].
  apply str_eqb_eq in E; contradiction.
Qed.

(** ** Running the methods *)

Lemma createEntityMesh_run (e : value) (w : world) :
  createEntityMesh e w =
  (match entity_look e with
   | Normal (p, c) =>
     Normal {| ref := allocated w; type := js "Mesh"; position := p;
               color := c |}
   | Throw er => Throw er
   end,
   {| children := children w;
      allocated := allocated w + entity_allocations e |}).
Proof.
  unfold entity_look, entity_allocations, createEntityMesh, bind, lift,
    new_Object3D, ret.
  destruct w as [ch n]; cbn [children allocated fst snd].
  destruct (get_member e "status") as [st|er]; cbn [fst snd allocated];
    [|rewrite Nat.add_0_r; reflexivity].
  destruct (getEntityColor st) as [col|er]; cbn [fst snd allocated children];
    [|rewrite Nat.add_0_r; reflexivity].
  destruct (get_member e "coordinates") as [c|er];
    cbn [fst snd allocated children];
    [|rewrite Nat.add_1_r; reflexivity].
  destruct (get_member c "x") as [vx|er]; cbn [fst snd allocated children];
    [|rewrite Nat.add_1_r; reflexivity].
  destruct (get_member c "y") as [vy|er]; cbn [fst snd allocated children];
    [|rewrite Nat.add_1_r; reflexivity].
  destruct (get_member c "z") as [vz|er]; cbn [fst snd allocated children];
    [|rewrite Nat.add_1_r; reflexivity].
  rewrite Nat.add_1_r; reflexivity.
Qed.

Lemma entity_look_allocates (e : value) (a : Vector3 * property_value) :
  entity_look e = Normal a -> entity_allocations e = 1.
Proof.
  unfold entity_look, entity_allocations, createEntityMesh, bind, lift,
    new_Object3D, ret.
  cbn [children allocated fst snd empty_scene].
  destruct (get_member e "status") as [st|er]; cbn; [|discriminate].
  destruct (getEntityColor st) as [col|er]; cbn; [|discriminate].
  destruct (get_member e "coordinates") as [c|er]; cbn; [|discriminate].
  destruct (get_member c "x") as [vx|er]; cbn; [|discriminate].
  destruct (get_member c "y") as [vy|er]; cbn; [|discriminate].
  destruct (get_member c "z") as [vz|er]; cbn; [|discriminate].
  reflexivity.
Qed.

Lemma add_entity_run (e : value) (w : world) :
  add_entity e w =
  (match entity_look e with Normal _ => Normal tt | Throw er => Throw er end,
   {| children := children w ++ new_meshes (allocated w) [e];
      allocated := allocated w + entity_allocations e |}).
Proof.
  unfold add_entity, bind. rewrite createEntityMesh_run.
  cbn [new_meshes].
  destruct (entity_look e) as [[p c]|er].
  - reflexivity.
  - rewrite app_nil_r; reflexivity.
Qed.

Lemma forEach_run (es : list value) (w : world) :
  forEach add_entity es w =
  (outcome es,
   {| children := children w ++ new_meshes (allocated w) es;
      allocated := allocated w + allocations es |}).
Proof.
  revert w; induction es as [|e es IH]; intros w.
  - cbn. rewrite app_nil_r, Nat.add_0_r. destruct w; reflexivity.
  - cbn [forEach]. unfold bind at 1. rewrite add_entity_run.
    cbn [new_meshes outcome allocations].
    destruct (entity_look e) as [a|er] eqn:E.
    + rewrite IH. cbn [children allocated].
      rewrite (entity_look_allocates e a E), Nat.add_1_r, <- app_assoc.
      rewrite <- Nat.add_succ_comm. reflexivity.
    + reflexivity.
Qed.

Lemma updateEntities_array (es : list value) (w : world) :
  updateEntities (VArr es) w =
  (outcome es,
   {| children := others w ++ new_meshes (allocated w) es;
      allocated := allocated w + allocations es |}).
Proof.
  unfold updateEntities, bind, clearEntities.
  change (fun entity => mesh <- createEntityMesh entity ;; scene_add mesh)
    with add_entity.
  rewrite forEach_run. reflexivity.
Qed.

Lemma updateEntities_not_array (v : value) (w : world) :
  (forall es, v <> VArr es) ->
  updateEntities v w =
  (Throw TypeError, {| children := others w; allocated := allocated w |}).
Proof.
  intros H. unfold updateEntities, bind, clearEntities, throw.
  destruct v; try reflexivity. exfalso; eapply H; reflexivity.
Qed.

(** ** The new meshes *)

Lemma new_meshes_are_meshes (n : nat) (es : list value) :
  filter is_Mesh (new_meshes n es) = new_meshes n es.
Proof.
  revert n; induction es as [|e es IH]; intros n; cbn; [reflexivity|].
  destruct (entity_look e); [|reflexivity].
  cbn. rewrite IH. reflexivity.
Qed.

Lemma new_meshes_no_others (n : nat) (es : list value) :
  filter (fun child => negb (is_Mesh child)) (new_meshes n es) = [].
Proof.
  revert n; induction es as [|e es IH]; intros n; cbn; [reflexivity|].
  destruct (entity_look e); [|reflexivity].
  cbn. apply IH.
Qed.

Lemma new_meshes_appearance (n : nat) (es : list value) :
  map appearance (new_meshes n es) = looks es.
Proof.
  revert n; induction es as [|e es IH]; intros n; cbn; [reflexivity|].
  destruct (entity_look e) as [[p c]|]; [|reflexivity].
  cbn. rewrite IH. reflexivity.
Qed.

Lemma new_meshes_refs (n : nat) (es : list value) :
  map ref (new_meshes n es) = seq n (List.length (looks es)).
Proof.
  revert n; induction es as [|e es IH]; intros n; cbn; [reflexivity|].
  destruct (entity_look e) as [[p c]|]; [|reflexivity].
  cbn. rewrite IH. reflexivity.
Qed.

Lemma others_have_no_mesh (l : list Object3D) :
  filter is_Mesh (filter (fun child => negb (is_Mesh child)) l) = [].
Proof.
  induction l as [|o l IH]; cbn; [reflexivity|].
  destruct (is_Mesh o) eqn:E; cbn; [assumption|].
  rewrite E; assumption.
Qed.

Lemma others_idempotent (l : list Object3D) :
  filter (fun child => negb (is_Mesh child))
         (filter (fun child => negb (is_Mesh child)) l) =
  filter (fun child => negb (is_Mesh child)) l.
Proof.
  induction l as [|o l IH]; cbn; [reflexivity|].
  destruct (is_Mesh o) eqn:E; cbn; [assumption|].
  rewrite E; cbn; rewrite IH; reflexivity.
Qed.

Lemma meshes_after_update (es : list value) (w : world) :
  meshes (snd (updateEntities (VArr es) w)) = new_meshes (allocated w) es.
Proof.
  rewrite updateEntities_array. unfold meshes, others. cbn [snd children].
  rewrite filter_app, others_have_no_mesh, new_meshes_are_meshes.
  reflexivity.
Qed.

Lemma appearance_after_update (es : list value) (w : world) :
  map appearance (meshes (snd (updateEntities (VArr es) w))) = looks es.
Proof. rewrite meshes_after_update. apply new_meshes_appearance. Qed.

Lemma others_after_update (v : value) (w : world) :
  others (snd (updateEntities v w)) = others w.
Proof.
  assert (A : forall es,
             others (snd (updateEntities (VArr es) w)) = others w).
  { intros es. rewrite updateEntities_array. unfold others.
    cbn [snd children].
    rewrite filter_app, others_idempotent, new_meshes_no_others.
    apply app_nil_r. }
  destruct v; try apply A;
    (rewrite updateEntities_not_array by discriminate;
     unfold others; cbn [snd children]; apply others_idempotent).
Qed.

(** ** Well-formed entities *)

Lemma getEntityColor_string (s : jsstring) :
  getEntityColor (VStr s) =
  Normal (if ToBoolean (Get colors s) then Get colors s
          else Data (VNum (int_literal 0x808080))).
Proof. reflexivity. Qed.

Lemma is_entity_look (e : value) :
  is_entity e = true ->
  entity_look e = Normal (entity_coordinates e, entity_color e).
Proof.
  intros H. destruct e as [| | | | |?|props]; try discriminate.
  unfold is_entity in H.
  destruct (own_property props (js "coordinates")) as [[| | | | | |c]|] eqn:Ec;
    try discriminate.
  destruct (own_property props (js "status")) as [[| | | |s| |]|] eqn:Es;
    try discriminate.
  destruct (own_property c (js "x")) as [[| | |vx| | |]|] eqn:Ex;
    try discriminate;
  destruct (own_property c (js "y")) as [[| | |vy| | |]|] eqn:Ey;
    try discriminate;
  destruct (own_property c (js "z")) as [[| | |vz| | |]|] eqn:Ez;
    try discriminate.
  unfold entity_look, entity_coordinates, entity_color, member,
    createEntityMesh, bind, lift, new_Object3D, ret, get_member.
  rewrite Ec, Es. cbv beta iota. rewrite Ex, Ey, Ez.
  rewrite getEntityColor_string. reflexivity.
Qed.

Lemma snapshot_looks (es : list value) :
  is_snapshot es ->
  looks es = map (fun e => (entity_coordinates e, entity_color e)) es.
Proof.
  unfold is_snapshot.
  induction es as [|e es IH]; cbn; [reflexivity|].
  rewrite andb_true_iff. intros [He Hes].
  rewrite (is_entity_look e He), IH by assumption. reflexivity.
Qed.

Lemma snapshot_outcome (es : list value) :
  is_snapshot es -> outcome es = Normal tt.
Proof.
  unfold is_snapshot.
  induction es as [|e es IH]; cbn; [reflexivity|].
  rewrite andb_true_iff. intros [He Hes].
  rewrite (is_entity_look e He). auto.
Qed.

Lemma snapshot_allocations (es : list value) :
  is_snapshot es -> allocations es = List.length es.
Proof.
  unfold is_snapshot.
  induction es as [|e es IH]; cbn; [reflexivity|].
  rewrite andb_true_iff. intros [He Hes].
  rewrite (is_entity_look e He).
  rewrite (entity_look_allocates e _ (is_entity_look e He)), IH by assumption.
  reflexivity.
Qed.

Lemma looks_allocations (es : list value) :
  List.length (looks es) <= allocations es.
Proof.
  induction es as [|e es IH]; cbn; [lia|].
  destruct (entity_look e) as [a|er] eqn:E; cbn; [|lia].
  rewrite (entity_look_allocates e a E). lia.
Qed.

Lemma new_meshes_placed (n : nat) (es : list value) :
  is_snapshot es -> Forall2 placed_at es (new_meshes n es).
Proof.
  unfold is_snapshot.
  revert n; induction es as [|e es IH]; intros n; cbn; [constructor|].
  rewrite andb_true_iff. intros [He Hes].
  rewrite (is_entity_look e He). constructor; [|apply IH; assumption].
  split; reflexivity.
Qed.

Lemma new_meshes_fresh (n : nat) (es : list value) (m : Object3D) :
  In m (new_meshes n es) -> n <= ref m < n + allocations es.
Proof.
  intros H. apply (in_map ref) in H. rewrite new_meshes_refs in H.
  apply in_seq in H. pose proof (looks_allocations es). lia.
Qed.

Lemma update_keeps_refs_allocated (v : value) (w : world) :
  refs_allocated w -> refs_allocated (snd (updateEntities v w)).
Proof.
  unfold refs_allocated. intros H.
  assert (O : Forall (fun o => ref o < allocated w) (others w)).
  { unfold others. apply Forall_forall. intros o Ho.
    apply filter_In in Ho. rewrite Forall_forall in H. apply H, Ho. }
  destruct v as [| | | | |es|];
    try (rewrite updateEntities_not_array by discriminate; exact O).
  rewrite updateEntities_array. cbn [snd children allocated].
  apply Forall_app; split.
  - eapply Forall_impl; [|exact O]. cbn; intros; lia.
  - apply Forall_forall. intros m Hm. apply new_meshes_fresh in Hm. lia.
Qed.

Lemma apply_snapshots_app (l1 l2 : list (list value)) (w : world) :
  apply_snapshots (l1 ++ l2) w =
  (apply_snapshots l1 ;; apply_snapshots l2) w.
Proof.
  revert w; induction l1 as [|s l1 IH]; intros w; cbn [app apply_snapshots].
  - reflexivity.
  - unfold bind. destruct (updateEntities (VArr s) w) as [[[]|er] w1].
    + rewrite IH. reflexivity.
    + reflexivity.
Qed.

Lemma apply_snapshots_ok (l : list (list value)) (w : world) :
  Forall is_snapshot l -> refs_allocated w ->
  exists w', apply_snapshots l w = (Normal tt, w') /\ refs_allocated w'.
Proof.
  intros Hl; revert w; induction Hl as [|s l Hs Hl IH]; intros w Hw.
  - exists w; split; [reflexivity | assumption].
  - cbn [apply_snapshots]. unfold bind.
    pose proof (update_keeps_refs_allocated (VArr s) w Hw) as Hw1.
    rewrite updateEntities_array in *. rewrite (snapshot_outcome s Hs).
    cbn [snd] in Hw1. apply IH, Hw1.
Qed.

Lemma update_snapshot (es : list value) (w : world) :
  is_snapshot es ->
  updateEntities (VArr es) w =
  (Normal tt,
   {| children := others w ++ new_meshes (allocated w) es;
      allocated := allocated w + List.length es |}).
Proof.
  intros H. rewrite updateEntities_array.
  rewrite (snapshot_outcome es H), (snapshot_allocations es H). reflexivity.
Qed.

Lemma old_mesh_gone (es : list value) (w : world) (o : Object3D) :
  refs_allocated w -> In o (meshes w) ->
  ~ In o (children (snd (updateEntities (VArr es) w))).
Proof.
  intros Hw Ho. rewrite updateEntities_array. cbn [snd children].
  unfold meshes in Ho. apply filter_In in Ho as [Hin Hmesh].
  rewrite in_app_iff. intros [H|H].
  - unfold others in H. apply filter_In in H as [_ H].
    rewrite Hmesh in H. discriminate.
  - apply new_meshes_fresh in H.
    unfold refs_allocated in Hw. rewrite Forall_forall in Hw.
    specialize (Hw o Hin). lia.
Qed.

(** ** The scene after a snapshot *)

(** C1. After any sequence of snapshots, processing the latest one
    through [updateEntities] returns normally and leaves in the scene
    exactly one mesh per entity of that snapshot, in order, each at its
    entity's coordinates and each a distinct object; no mesh that was in
    the scene before is still there, and after an empty snapshot the
    scene has no mesh. *)
Theorem scene_matches_latest_snapshot
  (earlier : list (list value)) (latest : list value) (w : world) :
  refs_allocated w ->
  Forall is_snapshot (earlier ++ [latest]) ->
  exists before after,
    apply_snapshots earlier w = (Normal tt, before) /\
    updateEntities (VArr latest) before = (Normal tt, after) /\
    apply_snapshots (earlier ++ [latest]) w = (Normal tt, after) /\
    scene_shows latest before after.
Proof.
  intros Hw Hall. apply Forall_app in Hall as [Hearlier Hlatest].
  inversion_clear Hlatest as [|? ? Hs _].
  destruct (apply_snapshots_ok earlier w Hearlier Hw) as (before & Hrun & Hb).
  pose proof (update_snapshot latest before Hs) as Hupd.
  eexists before, _. split; [exact Hrun|]. split; [exact Hupd|]. split.
  - rewrite apply_snapshots_app. unfold bind at 1. rewrite Hrun.
    cbn [apply_snapshots]. unfold bind, ret. rewrite Hupd. reflexivity.
  - pose proof (meshes_after_update latest before) as Hm.
    rewrite Hupd in Hm. cbn [snd] in Hm.
    unfold scene_shows. rewrite Hm. repeat split.
    + apply new_meshes_placed, Hs.
    + rewrite new_meshes_refs. apply seq_NoDup.
    + intros o Ho. pose proof (old_mesh_gone latest before o Hb Ho) as Hg.
      rewrite Hupd in Hg. exact Hg.
    + intros ->. reflexivity.
Qed.

Lemma scene_matches_latest_snapshot_witness :
  refs_allocated initial /\
  Forall is_snapshot
    ([[sample_entity "e1" 0 0 0 "active"; sample_entity "e2" 1 2 3 "idle"]]
       ++ [[sample_entity "e1" 1 0 0 "alert"]]) /\
  exists before after,
    apply_snapshots
      [[sample_entity "e1" 0 0 0 "active"; sample_entity "e2" 1 2 3 "idle"]]
      initial = (Normal tt, before) /\
    updateEntities (VArr [sample_entity "e1" 1 0 0 "alert"]) before =
      (Normal tt, after) /\
    apply_snapshots
      ([[sample_entity "e1" 0 0 0 "active"; sample_entity "e2" 1 2 3 "idle"]]
         ++ [[sample_entity "e1" 1 0 0 "alert"]])
      initial = (Normal tt, after) /\
    scene_shows [sample_entity "e1" 1 0 0 "alert"] before after.
Proof.
  assert (Hw : refs_allocated initial).
  { unfold refs_allocated. cbn. repeat constructor. }
  assert (Hs : Forall is_snapshot
    ([[sample_entity "e1" 0 0 0 "active"; sample_entity "e2" 1 2 3 "idle"]]
       ++ [[sample_entity "e1" 1 0 0 "alert"]])).
  { repeat constructor. }
  split; [exact Hw|]. split; [exact Hs|].
  exact (scene_matches_latest_snapshot _ _ initial Hw Hs).
Defined.

Lemma new_meshes_nth (n : nat) (es : list value) (i : nat) (e : value) :
  is_snapshot es -> nth_error es i = Some e ->
  nth_error (new_meshes n es) i =
  Some (new_Mesh (n + i) (entity_coordinates e, entity_color e)).
Proof.
  unfold is_snapshot.
  revert n i; induction es as [|e' es IH]; intros n i Hs Hi.
  - destruct i; discriminate.
  - cbn in Hs. apply andb_true_iff in Hs as [He Hes].
    cbn [new_meshes]. rewrite (is_entity_look e' He).
    destruct i as [|i]; cbn in Hi |- *.
    + injection Hi as ->. rewrite Nat.add_0_r. reflexivity.
    + rewrite (IH (S n) i Hes Hi). rewrite Nat.add_succ_comm. reflexivity.
Qed.

(** C8. In an applied snapshot, the mesh constructed for an entity
    by [createEntityMesh] and put in the scene by [updateEntities] has
    its position set to exactly the entity's [coordinates.x], [.y] and
    [.z]. *)
Theorem mesh_positioned_at_coordinates
  (es : list value) (w : world) (i : nat) (e : value) :
  is_snapshot es -> nth_error es i = Some e ->
  exists m w1 w',
    createEntityMesh e w = (Normal m, w1) /\
    position m = entity_coordinates e /\
    updateEntities (VArr es) w = (Normal tt, w') /\
    exists m', nth_error (meshes w') i = Some m' /\
      x (position m') = member (member e "coordinates") "x" /\
      y (position m') = member (member e "coordinates") "y" /\
      z (position m') = member (member e "coordinates") "z".
Proof.
  intros Hs Hi.
  assert (He : is_entity e = true).
  { unfold is_snapshot in Hs. rewrite forallb_forall in Hs.
    apply Hs. eapply nth_error_In; eassumption. }
  rewrite createEntityMesh_run, (is_entity_look e He).
  do 3 eexists. split; [reflexivity|]. split; [reflexivity|].
  split; [apply update_snapshot, Hs|].
  pose proof (meshes_after_update es w) as Hm.
  rewrite (update_snapshot es w Hs) in Hm. cbn [snd] in Hm.
  rewrite Hm, (new_meshes_nth (allocated w) es i e Hs Hi).
  eexists; split; [reflexivity|]. repeat split.
Qed.

Lemma mesh_positioned_at_coordinates_witness :
  is_snapshot [sample_entity "e1" 4 5 6 "active";
               sample_entity "e2" (-1) 2 3 "idle"] /\
  nth_error [sample_entity "e1" 4 5 6 "active";
             sample_entity "e2" (-1) 2 3 "idle"] 1 =
    Some (sample_entity "e2" (-1) 2 3 "idle") /\
  exists m w1 w',
    createEntityMesh (sample_entity "e2" (-1) 2 3 "idle") initial =
      (Normal m, w1) /\
    position m = entity_coordinates (sample_entity "e2" (-1) 2 3 "idle") /\
    updateEntities (VArr [sample_entity "e1" 4 5 6 "active";
                          sample_entity "e2" (-1) 2 3 "idle"]) initial =
      (Normal tt, w') /\
    exists m', nth_error (meshes w') 1 = Some m' /\
      x (position m') =
        member (member (sample_entity "e2" (-1) 2 3 "idle") "coordinates") "x" /\
      y (position m') =
        member (member (sample_entity "e2" (-1) 2 3 "idle") "coordinates") "y" /\
      z (position m') =
        member (member (sample_entity "e2" (-1) 2 3 "idle") "coordinates") "z".
Proof.
  split; [reflexivity|]. split; [reflexivity|].
  apply mesh_positioned_at_coordinates; reflexivity.
Defined.

(** ** What an update leaves alone *)

(** C9. Whatever [updateEntities] is called with, the children of the
    scene that are not of type [Mesh] are afterwards the same objects, in
    the same order and unchanged; only meshes can have left the scene,
    and the two lights that [init] added are still there. *)
Theorem non_mesh_children_kept (entities : value) (w : world) :
  let w' := snd (updateEntities entities w) in
  others w' = others w /\
  (forall o, In o (children w) -> is_Mesh o = false -> In o (children w')) /\
  (forall o, In o (children w) -> ~ In o (children w') -> is_Mesh o = true) /\
  others (snd (updateEntities entities initial)) = children initial.
Proof.
  cbn zeta. pose proof (others_after_update entities w) as H.
  assert (K : forall o, In o (children w) -> is_Mesh o = false ->
                        In o (children (snd (updateEntities entities w)))).
  { intros o Hin Ho.
    assert (Hoth : In o (others w)).
    { unfold others. apply filter_In. rewrite Ho. auto. }
    rewrite <- H in Hoth. unfold others in Hoth.
    apply filter_In in Hoth. apply Hoth. }
  repeat split.
  - exact H.
  - exact K.
  - intros o Hin Hout. destruct (is_Mesh o) eqn:E; [reflexivity|].
    exfalso. apply Hout, K; assumption.
  - rewrite others_after_update. reflexivity.
Qed.

(** C10. The meshes of the scene after [updateEntities] are a function of
    the argument alone: from any two scenes the same argument gives
    meshes equal in number, order, position and color, and the same
    completion. *)
Theorem meshes_depend_on_snapshot_only (s : value) (w1 w2 : world) :
  map appearance (meshes (snd (updateEntities s w1))) =
  map appearance (meshes (snd (updateEntities s w2))) /\
  List.length (meshes (snd (updateEntities s w1))) =
  List.length (meshes (snd (updateEntities s w2))) /\
  fst (updateEntities s w1) = fst (updateEntities s w2).
Proof.
  assert (A : map appearance (meshes (snd (updateEntities s w1))) =
              map appearance (meshes (snd (updateEntities s w2))) /\
              fst (updateEntities s w1) = fst (updateEntities s w2)).
  { destruct s as [| | | | |es|];
      try (rewrite !updateEntities_not_array by discriminate;
           unfold meshes, others; cbn [snd fst children];
           rewrite !others_have_no_mesh; split; reflexivity).
    rewrite !appearance_after_update.
    rewrite !updateEntities_array. split; reflexivity. }
  destruct A as [A B]. repeat split; try assumption.
  rewrite <- (length_map appearance), A, length_map. reflexivity.
Qed.

(** ** Object identity across snapshots *)

Lemma update_twice
  (a b : list value) (w : world) :
  is_snapshot a ->
  meshes (snd (updateEntities (VArr b) (snd (updateEntities (VArr a) w)))) =
  new_meshes (allocated w + List.length a) b.
Proof.
  intros Ha. rewrite meshes_after_update, (update_snapshot a w Ha).
  reflexivity.
Qed.

(** C2 fails as stated: [e1] moves from (0,0,0) to (1,0,0) between two
    snapshots, and the mesh that stands for it afterwards is another
    object than before. *)
Lemma updated_in_place_counterexample :
  ~ updated_in_place [sample_entity "e1" 0 0 0 "active"]
                     [sample_entity "e1" 1 0 0 "active"] initial.
Proof.
  intros H.
  destruct (H 0 0 (sample_entity "e1" 0 0 0 "active")
              (sample_entity "e1" 1 0 0 "active")
              eq_refl eq_refl eq_refl) as (m1 & m2 & H1 & H2 & Href & _).
  - discriminate.
  - vm_compute in H1, H2.
    injection H1 as <-. injection H2 as <-. discriminate Href.
Qed.

(** C2, amended. For an entity whose identifier is in two consecutive
    snapshots with different fields, the second snapshot takes the mesh
    that stood for it out of the scene and puts a newly created mesh in
    its place, with the position and color of the entity in the second
    snapshot. *)
Theorem changed_entity_gets_new_object
  (a b : list value) (w : world) (i j : nat) (ea eb : value) :
  is_snapshot a -> is_snapshot b ->
  nth_error a i = Some ea -> nth_error b j = Some eb ->
  entity_id ea = entity_id eb -> ea <> eb ->
  let w1 := snd (updateEntities (VArr a) w) in
  let w2 := snd (updateEntities (VArr b) w1) in
  exists m1 m2,
    nth_error (meshes w1) i = Some m1 /\
    nth_error (meshes w2) j = Some m2 /\
    ref m1 < allocated w1 <= ref m2 /\
    ~ In m1 (children w2) /\
    position m2 = entity_coordinates eb /\
    color m2 = entity_color eb.
Proof.
  intros Ha Hb Hi Hj _ _ w1 w2.
  assert (Hlen : i < List.length a).
  { apply nth_error_Some. rewrite Hi. discriminate. }
  subst w2. subst w1.
  rewrite (update_twice a b w Ha), meshes_after_update.
  rewrite (new_meshes_nth _ a i ea Ha Hi), (new_meshes_nth _ b j eb Hb Hj).
  do 2 eexists. split; [reflexivity|]. split; [reflexivity|].
  rewrite (update_snapshot a w Ha). cbn [snd allocated new_Mesh ref].
  split; [lia|]. split; [|split; reflexivity].
  rewrite updateEntities_array. cbn [snd children allocated].
  rewrite in_app_iff. intros [H|H].
  - unfold others in H. apply filter_In in H as [_ H]. discriminate H.
  - apply new_meshes_fresh in H. cbn [ref new_Mesh] in H. lia.
Qed.

Lemma changed_entity_gets_new_object_witness :
  exists m1 m2,
    nth_error
      (meshes (snd (updateEntities
                      (VArr [sample_entity "e1" 0 0 0 "active"]) initial)))
      0 = Some m1 /\
    nth_error
      (meshes (snd (updateEntities
                      (VArr [sample_entity "e1" 1 0 0 "active"])
                      (snd (updateEntities
                              (VArr [sample_entity "e1" 0 0 0 "active"])
                              initial)))))
      0 = Some m2 /\
    ref m1 <
      allocated (snd (updateEntities
                        (VArr [sample_entity "e1" 0 0 0 "active"]) initial))
      <= ref m2 /\
    ~ In m1 (children
               (snd (updateEntities
                       (VArr [sample_entity "e1" 1 0 0 "active"])
                       (snd (updateEntities
                               (VArr [sample_entity "e1" 0 0 0 "active"])
                               initial))))) /\
    position m2 = entity_coordinates (sample_entity "e1" 1 0 0 "active") /\
    color m2 = entity_color (sample_entity "e1" 1 0 0 "active").
Proof.
  apply (changed_entity_gets_new_object
           [sample_entity "e1" 0 0 0 "active"]
           [sample_entity "e1" 1 0 0 "active"] initial 0 0
           (sample_entity "e1" 0 0 0 "active")
           (sample_entity "e1" 1 0 0 "active"));
    try reflexivity.
  discriminate.
Defined.

Lemma filter_all {A} (f : A -> bool) (l : list A) :
  (forall a, In a l -> f a = true) -> filter f l = l.
Proof.
  intros H. apply forallb_filter_id, forallb_forall, H.
Qed.

Lemma filter_none {A} (f : A -> bool) (l : list A) :
  (forall a, In a l -> f a = false) -> filter f l = [].
Proof.
  induction l as [|a l IH]; intros H; cbn; [reflexivity|].
  rewrite (H a (or_introl eq_refl)). apply IH.
  intros b Hb. apply H. right; exact Hb.
Qed.

Lemma found_by_ref (o : Object3D) (l : list Object3D) :
  In o l -> existsb (fun o' => Nat.eqb (ref o') (ref o)) l = true.
Proof.
  intros H. apply existsb_exists. exists o. split; [exact H|].
  apply Nat.eqb_refl.
Qed.

Lemma not_found_by_ref (o : Object3D) (l : list Object3D) :
  (forall o', In o' l -> ref o' <> ref o) ->
  existsb (fun o' => Nat.eqb (ref o') (ref o)) l = false.
Proof.
  intros H. destruct (existsb _ l) eqn:E; [|reflexivity].
  apply existsb_exists in E as (o' & Hin & Heq).
  apply Nat.eqb_eq in Heq. exfalso. exact (H o' Hin Heq).
Qed.

(** Objects kept in [base], objects [gone] replaced by objects [new]
    whose refs lie beyond everything else. *)
Lemma detached_replaced (base gone new : list Object3D) (n1 n2 : nat) :
  n1 <= n2 ->
  (forall o, In o base -> ref o < n1) ->
  (forall o, In o gone -> n1 <= ref o < n2) ->
  (forall o, In o new -> n2 <= ref o) ->
  filter (fun o => negb (existsb (fun o' => Nat.eqb (ref o') (ref o))
                                 (base ++ new)))
         (base ++ gone) = gone /\
  filter (fun o => negb (existsb (fun o' => Nat.eqb (ref o') (ref o))
                                 (base ++ gone)))
         (base ++ new) = new.
Proof.
  intros Hle Hb Hg Hn. rewrite !filter_app. split.
  - rewrite (filter_none _ base), (filter_all _ gone); [reflexivity| |].
    + intros o Ho. rewrite not_found_by_ref; [reflexivity|].
      intros o' Ho'. apply in_app_iff in Ho' as [Ho'|Ho'].
      * apply Hb in Ho'. apply Hg in Ho. lia.
      * apply Hn in Ho'. apply Hg in Ho. lia.
    + intros o Ho. rewrite found_by_ref; [reflexivity|].
      apply in_app_iff; left; exact Ho.
  - rewrite (filter_none _ base), (filter_all _ new); [reflexivity| |].
    + intros o Ho. rewrite not_found_by_ref; [reflexivity|].
      intros o' Ho'. apply in_app_iff in Ho' as [Ho'|Ho'].
      * apply Hb in Ho'. apply Hn in Ho. lia.
      * apply Hg in Ho'. apply Hn in Ho. lia.
    + intros o Ho. rewrite found_by_ref; [reflexivity|].
      apply in_app_iff; left; exact Ho.
Qed.

(** C3 fails as stated: applying the one-entity snapshot a second time
    detaches the mesh of the first application. *)
Lemma no_churn_counterexample :
  ~ no_churn [sample_entity "e1" 0 0 0 "active"] initial.
Proof.
  intros (H & _). vm_compute in H. discriminate H.
Qed.

(** C3, amended. Applying a snapshot a second time leaves the scene
    looking as it did: as many meshes, in the same order, with the same
    positions and colors, and the same other children. It does so by
    replacement: every mesh of the first application is detached and
    every mesh then in the scene is newly attached. *)
Theorem same_snapshot_same_appearance (a : list value) (w : world) :
  refs_allocated w -> is_snapshot a ->
  let w1 := snd (updateEntities (VArr a) w) in
  let w2 := snd (updateEntities (VArr a) w1) in
  updateEntities (VArr a) w1 = (Normal tt, w2) /\
  map appearance (meshes w2) = map appearance (meshes w1) /\
  List.length (meshes w2) = List.length a /\
  others w2 = others w1 /\
  detached w1 w2 = meshes w1 /\
  attached w1 w2 = meshes w2.
Proof.
  intros Hw Ha w1 w2.
  assert (E2 : updateEntities (VArr a) w1 = (Normal tt, w2)).
  { subst w2. rewrite (update_snapshot a w1 Ha). reflexivity. }
  split; [exact E2|].
  split.
  { subst w2. subst w1. rewrite !appearance_after_update. reflexivity. }
  split.
  { subst w2. rewrite meshes_after_update.
    rewrite <- (length_map appearance), new_meshes_appearance.
    rewrite (snapshot_looks a Ha), length_map. reflexivity. }
  split; [apply others_after_update|].
  assert (M1 : meshes w1 = new_meshes (allocated w) a)
    by apply meshes_after_update.
  assert (M2 : meshes w2 = new_meshes (allocated w1) a)
    by apply meshes_after_update.
  assert (C1 : children w1 = others w ++ new_meshes (allocated w) a).
  { subst w1. rewrite updateEntities_array. reflexivity. }
  assert (A1 : allocated w1 = allocated w + List.length a).
  { subst w1. rewrite (update_snapshot a w Ha). reflexivity. }
  assert (C2 : children w2 = others w ++ new_meshes (allocated w1) a).
  { assert (O1 : others w1 = others w) by apply others_after_update.
    subst w2. rewrite updateEntities_array. cbn [snd children].
    rewrite O1. reflexivity. }
  unfold attached, detached. rewrite C1, C2, M1, M2.
  apply (detached_replaced (others w) _ _ (allocated w) (allocated w1)).
  - lia.
  - intros o Ho. unfold others in Ho. apply filter_In in Ho as [Ho _].
    unfold refs_allocated in Hw. rewrite Forall_forall in Hw. apply Hw, Ho.
  - intros o Ho. apply new_meshes_fresh in Ho.
    rewrite (snapshot_allocations a Ha) in Ho. lia.
  - intros o Ho. apply new_meshes_fresh in Ho. lia.
Qed.

Lemma same_snapshot_same_appearance_witness :
  refs_allocated initial /\
  is_snapshot [sample_entity "e1" 0 0 0 "active";
               sample_entity "e2" 1 2 3 "alert"] /\
  let w1 := snd (updateEntities
                   (VArr [sample_entity "e1" 0 0 0 "active";
                          sample_entity "e2" 1 2 3 "alert"]) initial) in
  let w2 := snd (updateEntities
                   (VArr [sample_entity "e1" 0 0 0 "active";
                          sample_entity "e2" 1 2 3 "alert"]) w1) in
  updateEntities (VArr [sample_entity "e1" 0 0 0 "active";
                        sample_entity "e2" 1 2 3 "alert"]) w1 =
    (Normal tt, w2) /\
  map appearance (meshes w2) = map appearance (meshes w1) /\
  List.length (meshes w2) = 2 /\
  others w2 = others w1 /\
  detached w1 w2 = meshes w1 /\
  attached w1 w2 = meshes w2.
Proof.
  assert (Hw : refs_allocated initial).
  { unfold refs_allocated. cbn. repeat constructor. }
  split; [exact Hw|]. split; [reflexivity|].
  exact (same_snapshot_same_appearance
           [sample_entity "e1" 0 0 0 "active";
            sample_entity "e2" 1 2 3 "alert"] initial Hw eq_refl).
Defined.

(** ** Colors *)

Lemma known_status_colors :
  getEntityColor (VStr (js "active")) =
    Normal (Data (VNum (int_literal 0x00ff00))) /\
  getEntityColor (VStr (js "idle")) =
    Normal (Data (VNum (int_literal 0xffff00))) /\
  getEntityColor (VStr (js "alert")) =
    Normal (Data (VNum (int_literal 0xff0000))).
Proof. repeat split. Qed.

Lemma unlisted_key_gray (key : jsstring) :
  key <> js "active" -> key <> js "idle" -> key <> js "alert" ->
  inherited Object_prototype key = None ->
  (if ToBoolean (Get colors key) then Get colors key else gray) = gray.
Proof.
  intros Ha Hi Hl Hp. unfold Get, colors, own_property.
  rewrite (str_eqb_neq (js "active") key), (str_eqb_neq (js "idle") key),
    (str_eqb_neq (js "alert") key) by congruence.
  rewrite Hp. reflexivity.
Qed.

(** C5. A status that names a property every object inherits does not
    get the default gray: for ["constructor"] the lookup in [colors]
    finds the inherited function, which is truthy, so [getEntityColor]
    returns it, [createEntityMesh] builds the mesh with it as color, and
    that mesh is what an [entity_update] message puts in the scene. No
    exception is raised. *)
Theorem inherited_status_name_not_gray :
  getEntityColor (VStr (js "constructor")) =
    Normal (Builtin (js "Object.prototype.constructor")) /\
  getEntityColor (VStr (js "constructor")) <> Normal gray /\
  (exists m w',
     createEntityMesh (sample_entity "e1" 0 0 0 "constructor") initial =
       (Normal m, w') /\
     color m = Builtin (js "Object.prototype.constructor")) /\
  (let message :=
     wire ("{'type': 'entity_update', 'entities': [{'id': 'e1', " ++
           "'coordinates': {'x': 0, 'y': 0, 'z': 0}, " ++
           "'status': 'constructor'}]}") in
   fst (onmessage message initial) = Normal tt /\
   map color (meshes (snd (onmessage message initial))) =
     [Builtin (js "Object.prototype.constructor")]).
Proof.
  split; [reflexivity|]. split; [discriminate|]. split.
  - do 2 eexists. split; reflexivity.
  - split; vm_compute; reflexivity.
Qed.

(** C6 fails as stated: an unknown status is not classified like
    [idle]. *)
Lemma treated_as_idle_counterexample :
  ~ treated_as_idle (VStr (js "offline")).
Proof. unfold treated_as_idle. discriminate. Qed.

(** C6, amended. A status that is none of the listed ones, and does not
    name a property inherited from [Object.prototype], is classified
    without failure by a default of its own, gray, which is not the
    classification of [idle]. *)
Theorem unknown_status_gets_default (status : value) (key : jsstring) :
  ToString status = Normal key ->
  key <> js "active" -> key <> js "idle" -> key <> js "alert" ->
  inherited Object_prototype key = None ->
  getEntityColor status = Normal gray /\
  getEntityColor status <> getEntityColor (VStr (js "idle")).
Proof.
  intros Hk Ha Hi Hl Hp.
  assert (G : getEntityColor status = Normal gray).
  { unfold getEntityColor. rewrite Hk.
    f_equal. apply unlisted_key_gray; assumption. }
  split; [exact G|]. rewrite G. discriminate.
Qed.

Lemma unknown_status_gets_default_witness :
  getEntityColor (VStr (js "offline")) = Normal gray /\
  getEntityColor (VStr (js "offline")) <> getEntityColor (VStr (js "idle")).
Proof.
  apply (unknown_status_gets_default (VStr (js "offline")) (js "offline"));
    try reflexivity; discriminate.
Defined.

(** ** The JSON reader *)

Lemma skip_ws_length (s : jsstring) :
  List.length (skip_ws s) <= List.length s.
Proof.
  induction s as [|c t IH]; cbn; [lia|].
  destruct (is_ws c); cbn; lia.
Qed.

Lemma skip_ws_cons (s : jsstring) (c : N) (t : jsstring) :
  skip_ws s = c :: t -> List.length t < List.length s.
Proof.
  intros H. pose proof (skip_ws_length s) as L. rewrite H in L.
  cbn in L. lia.
Qed.

Lemma prepend_Some (c : N) (o : option (jsstring * jsstring))
  (str r : jsstring) :
  prepend c o = Some (str, r) -> exists str', o = Some (str', r).
Proof.
  destruct o as [[str' r']|]; cbn; [|discriminate].
  intros [= <- <-]. eexists; reflexivity.
Qed.

Lemma parse_string_body_length (s str r : jsstring) :
  parse_string_body s = Some (str, r) -> List.length r < List.length s.
Proof.
  remember (List.length s) as n eqn:Hn.
  assert (Hle : List.length s <= n) by lia. clear Hn.
  revert s str r Hle.
  induction n as [|n IH]; intros s str r Hle H.
  - destruct s; [discriminate H | cbn in Hle; lia].
  - destruct s as [|c t]; [discriminate H|]. cbn in Hle.
    cbn [parse_string_body] in H.
    destruct (N.eqb c quote).
    { injection H as _ <-. cbn. lia. }
    destruct (N.eqb c backslash).
    + destruct t as [|e t']; [discriminate H|]. cbn in Hle.
      destruct (is_char e "u").
      * destruct t' as [|h1 [|h2 [|h3 [|h4 t'']]]]; try discriminate H.
        cbn in Hle. destruct (hex4 h1 h2 h3 h4); [|discriminate H].
        apply prepend_Some in H as [str' H].
        apply IH in H; [|lia]. cbn. lia.
      * destruct (simple_escape e); [|discriminate H].
        apply prepend_Some in H as [str' H].
        apply IH in H; [|lia]. cbn. lia.
    + destruct (N.ltb c 32); [discriminate H|].
      apply prepend_Some in H as [str' H].
      apply IH in H; [|lia]. cbn. lia.
Qed.

Lemma take_digits_length (s : jsstring) :
  List.length (snd (take_digits s)) <= List.length s.
Proof.
  induction s as [|c t IH]; cbn; [lia|].
  destruct (is_digit c); [|cbn; lia].
  destruct (take_digits t) as [ds r]. cbn in *. lia.
Qed.

Lemma parse_fraction_length (s ds r : jsstring) :
  parse_fraction s = Some (ds, r) -> List.length r <= List.length s.
Proof.
  unfold parse_fraction. destruct s as [|c t]; [intros [= <- <-]; cbn; lia|].
  destruct (is_char c ".").
  - pose proof (take_digits_length t) as L.
    destruct (take_digits t) as [[|d ds'] r']; [discriminate|].
    intros [= <- <-]. cbn in *. lia.
  - intros [= <- <-]. lia.
Qed.

Lemma parse_exponent_length (s r : jsstring) (e : Z) :
  parse_exponent s = Some (e, r) -> List.length r <= List.length s.
Proof.
  unfold parse_exponent. destruct s as [|c t]; [intros [= <- <-]; cbn; lia|].
  destruct (is_char c "e" || is_char c "E").
  - set (st := match t with
               | [] => (false, t)
               | sg :: u =>
                 if is_char sg "-" then (true, u)
                 else if is_char sg "+" then (false, u) else (false, t)
               end).
    assert (Hst : List.length (snd st) <= List.length t).
    { subst st. destruct t as [|sg u]; cbn; [lia|].
      destruct (is_char sg "-"); cbn; [lia|].
      destruct (is_char sg "+"); cbn; lia. }
    destruct st as [negative t']. cbn in Hst.
    pose proof (take_digits_length t') as L.
    destruct (take_digits t') as [[|d ds'] r']; [discriminate|].
    intros [= <- <-]. cbn in *. lia.
  - intros [= <- <-]. lia.
Qed.

Lemma parse_number_length (s r : jsstring) (n : number) :
  parse_number s = Some (n, r) -> List.length r < List.length s.
Proof.
  unfold parse_number.
  set (st := match s with
             | [] => (false, s)
             | c :: t => if is_char c "-" then (true, t) else (false, s)
             end).
  assert (Hst : List.length (snd st) <= List.length s).
  { subst st. destruct s as [|c t]; cbn; [lia|].
    destruct (is_char c "-"); cbn; lia. }
  destruct st as [negative s1]. cbn in Hst.
  destruct s1 as [|c t]; [discriminate|].
  destruct (is_digit c) eqn:Dc; [|discriminate].
  set (sp := if is_char c "0" then ([c], t) else take_digits (c :: t)).
  assert (Hsp : List.length (snd sp) <= List.length t).
  { subst sp. destruct (is_char c "0"); cbn; [lia|].
    rewrite Dc. pose proof (take_digits_length t) as L.
    destruct (take_digits t) as [ds r']. cbn in *. lia. }
  destruct sp as [int_digits s2]. cbn in Hsp.
  destruct (parse_fraction s2) as [[frac_digits s3]|] eqn:F; [|discriminate].
  destruct (parse_exponent s3) as [[e s4]|] eqn:E; [|discriminate].
  intros [= _ <-].
  apply parse_fraction_length in F. apply parse_exponent_length in E.
  cbn in Hst. lia.
Qed.

Lemma strip_prefix_length (p s r : jsstring) :
  strip_prefix p s = Some r ->
  List.length r + List.length p = List.length s.
Proof.
  revert s; induction p as [|x p IH]; intros s; cbn.
  - intros [= <-]. lia.
  - destruct s as [|y s']; [discriminate|].
    destruct (N.eqb x y); [|discriminate].
    intros H. apply IH in H. cbn. lia.
Qed.

Lemma parse_keyword_length (word : string) (v v' : value) (s r : jsstring) :
  parse_keyword word v s = Parsed v' r ->
  js word <> [] -> List.length r < List.length s.
Proof.
  unfold parse_keyword.
  destruct (strip_prefix (js word) s) as [rest|] eqn:E; [|discriminate].
  intros [= _ <-] Hw. apply strip_prefix_length in E.
  destruct (js word); [contradiction|]. cbn in E. lia.
Qed.

Lemma parse_value_unfold (fuel : nat) (s : jsstring) :
  parse_value (S fuel) s =
  match skip_ws s with
  | [] => Malformed
  | c :: t =>
    if is_char c "{" then
      match skip_ws t with
      | c' :: t' =>
        if is_char c' "}" then Parsed (VObj []) t'
        else parse_members fuel t []
      | [] => Malformed
      end
    else if is_char c "[" then
      match skip_ws t with
      | c' :: t' =>
        if is_char c' "]" then Parsed (VArr []) t'
        else parse_elements fuel t []
      | [] => Malformed
      end
    else if N.eqb c quote then
      match parse_string_body t with
      | Some (str, rest) => Parsed (VStr str) rest
      | None => Malformed
      end
    else if is_char c "t" then parse_keyword "true" (VBool true) (c :: t)
    else if is_char c "f" then parse_keyword "false" (VBool false) (c :: t)
    else if is_char c "n" then parse_keyword "null" VNull (c :: t)
    else
      match parse_number (c :: t) with
      | Some (n, rest) => Parsed (VNum n) rest
      | None => Malformed
      end
  end.
Proof. reflexivity. Qed.

Lemma parse_elements_unfold (fuel : nat) (s : jsstring) (acc : list value) :
  parse_elements (S fuel) s acc =
  match parse_value fuel s with
  | Parsed v r =>
    match skip_ws r with
    | c :: t =>
      if is_char c "," then parse_elements fuel t (v :: acc)
      else if is_char c "]" then Parsed (VArr (rev (v :: acc))) t
      else Malformed
    | [] => Malformed
    end
  | Malformed => Malformed
  | OutOfFuel => OutOfFuel
  end.
Proof. reflexivity. Qed.

Lemma parse_members_unfold (fuel : nat) (s : jsstring)
  (acc : list (jsstring * value)) :
  parse_members (S fuel) s acc =
  match skip_ws s with
  | c :: t =>
    if N.eqb c quote then
      match parse_string_body t with
      | Some (k, r) =>
        match skip_ws r with
        | c2 :: t2 =>
          if is_char c2 ":" then
            match parse_value fuel t2 with
            | Parsed v r2 =>
              match skip_ws r2 with
              | c3 :: t3 =>
                if is_char c3 "," then
                  parse_members fuel t3 (define_property acc k v)
                else if is_char c3 "}" then
                  Parsed (VObj (define_property acc k v)) t3
                else Malformed
              | [] => Malformed
              end
            | Malformed => Malformed
            | OutOfFuel => OutOfFuel
            end
          else Malformed
        | [] => Malformed
        end
      | None => Malformed
      end
    else Malformed
  | [] => Malformed
  end.
Proof. reflexivity. Qed.

Ltac split_match H :=
  match type of H with
  | context [match ?x with _ => _ end] =>
    let E := fresh "E" in destruct x eqn:E
  end.

Ltac consumed :=
  repeat match goal with
    | H : skip_ws _ = _ :: _ |- _ => apply skip_ws_cons in H
    | H : parse_string_body _ = Some _ |- _ =>
      apply parse_string_body_length in H
    | H : parse_number _ = Some _ |- _ => apply parse_number_length in H
    | H : parse_keyword _ _ _ = Parsed _ _ |- _ =>
      apply parse_keyword_length in H; [|cbn; discriminate]
    | H : Parsed _ _ = Parsed _ _ |- _ => injection H as <- <-
    end;
  cbn [List.length] in *.

Lemma parse_consumes (fuel : nat) :
  (forall s v r, parse_value fuel s = Parsed v r ->
                 List.length r < List.length s) /\
  (forall s acc v r, parse_elements fuel s acc = Parsed v r ->
                     List.length r < List.length s) /\
  (forall s acc v r, parse_members fuel s acc = Parsed v r ->
                     List.length r < List.length s).
Proof.
  induction fuel as [|fuel (IHv & IHe & IHm)].
  - repeat split; intros; discriminate.
  - split; [|split].
    + intros s v r H. rewrite parse_value_unfold in H.
      repeat split_match H; try discriminate H;
        try (apply IHm in H); try (apply IHe in H); consumed; lia.
    + intros s acc v r H. rewrite parse_elements_unfold in H.
      destruct (parse_value fuel s) as [v1 r1| |] eqn:E1; try discriminate H.
      apply IHv in E1.
      repeat split_match H; try discriminate H;
        try (apply IHe in H); consumed; lia.
    + intros s acc v r H. rewrite parse_members_unfold in H.
      destruct (skip_ws s) as [|c t] eqn:E0; [discriminate H|].
      destruct (N.eqb c quote); [|discriminate H].
      destruct (parse_string_body t) as [[k r1]|] eqn:E1; [|discriminate H].
      destruct (skip_ws r1) as [|c2 t2] eqn:E2; [discriminate H|].
      destruct (is_char c2 ":"); [|discriminate H].
      destruct (parse_value fuel t2) as [v1 r2| |] eqn:E3;
        try discriminate H.
      apply IHv in E3.
      repeat split_match H; try discriminate H;
        try (apply IHm in H); consumed; lia.
Qed.

Lemma parse_fuel (fuel : nat) :
  (forall s, 2 * List.length s + 1 <= fuel ->
             parse_value fuel s <> OutOfFuel) /\
  (forall s acc, 2 * List.length s + 2 <= fuel ->
                 parse_elements fuel s acc <> OutOfFuel) /\
  (forall s acc, 2 * List.length s + 2 <= fuel ->
                 parse_members fuel s acc <> OutOfFuel).
Proof.
  induction fuel as [|fuel (IHv & IHe & IHm)].
  - repeat split; intros; lia.
  - split; [|split].
    + intros s Hf H. rewrite parse_value_unfold in H.
      destruct (skip_ws s) as [|c t] eqn:E0; [discriminate H|].
      apply skip_ws_cons in E0.
      unfold parse_keyword in H.
      repeat split_match H; try discriminate H.
      * apply IHm in H; [exact H | lia].
      * apply IHe in H; [exact H | lia].
    + intros s acc Hf H. rewrite parse_elements_unfold in H.
      destruct (parse_value fuel s) as [v1 r1| |] eqn:E1.
      * apply (proj1 (parse_consumes fuel)) in E1.
        destruct (skip_ws r1) as [|c t] eqn:E2; [discriminate H|].
        apply skip_ws_cons in E2.
        repeat split_match H; try discriminate H.
        apply IHe in H; [exact H | lia].
      * discriminate H.
      * apply IHv in E1; [exact E1 | lia].
    + intros s acc Hf H. rewrite parse_members_unfold in H.
      destruct (skip_ws s) as [|c t] eqn:E0; [discriminate H|].
      apply skip_ws_cons in E0.
      destruct (N.eqb c quote); [|discriminate H].
      destruct (parse_string_body t) as [[k r1]|] eqn:E1; [|discriminate H].
      apply parse_string_body_length in E1.
      destruct (skip_ws r1) as [|c2 t2] eqn:E2; [discriminate H|].
      apply skip_ws_cons in E2.
      destruct (is_char c2 ":"); [|discriminate H].
      destruct (parse_value fuel t2) as [v1 r2| |] eqn:E3.
      * apply (proj1 (parse_consumes fuel)) in E3.
        destruct (skip_ws r2) as [|c3 t3] eqn:E4; [discriminate H|].
        apply skip_ws_cons in E4.
        repeat split_match H; try discriminate H.
        apply IHm in H; [exact H | lia].
      * discriminate H.
      * apply IHv in E3; [exact E3 | lia].
Qed.

(** The fuel [JSON.parse] supplies is never exhausted: a text is
    rejected only for its syntax. *)
Lemma JSON_parse_fuel (text : jsstring) :
  parse_value (2 * List.length text + 1) text <> OutOfFuel.
Proof. apply (proj1 (parse_fuel _)). lia. Qed.

Lemma JSON_parse_throws (text : jsstring) (e : error) :
  JSON.parse text = Throw e -> e = SyntaxError.
Proof.
  unfold JSON.parse.
  destruct (parse_value _ text) as [v rest| |]; try (intros [= <-]; reflexivity).
  destruct (skip_ws rest); [discriminate|]. intros [= <-]; reflexivity.
Qed.

Lemma parse_defined (fuel : nat) :
  (forall s v r, parse_value fuel s = Parsed v r -> v <> VUndefined) /\
  (forall s acc v r, parse_elements fuel s acc = Parsed v r ->
                     v <> VUndefined) /\
  (forall s acc v r, parse_members fuel s acc = Parsed v r ->
                     v <> VUndefined).
Proof.
  induction fuel as [|fuel (IHv & IHe & IHm)].
  - repeat split; intros; discriminate.
  - split; [|split].
    + intros s v r H. rewrite parse_value_unfold in H.
      unfold parse_keyword in H.
      repeat split_match H; try discriminate H;
        try (apply IHm in H; exact H); try (apply IHe in H; exact H);
        injection H as <- _; discriminate.
    + intros s acc v r H. rewrite parse_elements_unfold in H.
      repeat split_match H; try discriminate H;
        try (apply IHe in H; exact H);
        injection H as <- _; discriminate.
    + intros s acc v r H. rewrite parse_members_unfold in H.
      repeat split_match H; try discriminate H;
        try (apply IHm in H; exact H);
        injection H as <- _; discriminate.
Qed.

Lemma JSON_parse_defined (text : jsstring) :
  JSON.parse text <> Normal VUndefined.
Proof.
  unfold JSON.parse.
  destruct (parse_value _ text) as [v rest| |] eqn:E; try discriminate.
  destruct (skip_ws rest); [|discriminate].
  apply (proj1 (parse_defined _)) in E. congruence.
Qed.

(** ** Messages *)

Lemma page_eta (p : page) :
  {| map_state := map_state p; socket := socket p; uncaught := uncaught p |}
  = p.
Proof. destruct p; reflexivity. Qed.

Lemma strict_equals_other (t : value) (literal : string) :
  t <> VStr (js literal) -> strict_equals_string t literal = false.
Proof.
  intros H. destruct t; try reflexivity. cbn.
  apply str_eqb_neq. congruence.
Qed.

Lemma onmessage_parsed (event_data : jsstring) (v : value) (w : world) :
  JSON.parse event_data = Normal v ->
  onmessage event_data w =
  match get_member v "type" with
  | Throw e => (Throw e, w)
  | Normal t =>
    if strict_equals_string t "entity_update" then
      match get_member v "entities" with
      | Normal entities => updateEntities entities w
      | Throw e => (Throw e, w)
      end
    else (Normal tt, w)
  end.
Proof.
  intros H. unfold onmessage, bind, lift. rewrite H.
  destruct (get_member v "type") as [t|e]; [|reflexivity].
  destruct (strict_equals_string t "entity_update"); [|reflexivity].
  destruct (get_member v "entities"); reflexivity.
Qed.

(** C4 fails as stated: a text that is not JSON is malformed, and the
    exception that [JSON.parse] raises leaves the handler. *)
Lemma dropped_silently_counterexample :
  malformed (js "oops") /\ ~ dropped_silently (js "oops") DOMContentLoaded.
Proof.
  split; [exact I|]. unfold dropped_silently. vm_compute. discriminate.
Qed.

(** C4, amended. A malformed message changes neither the scene nor the
    state of the socket. When it parses to a value other than [null]
    that has no [type] field it is dropped without an exception; when it
    does not parse, the [SyntaxError] of [JSON.parse] leaves the handler
    uncaught, and for the message [null] the read of [type] raises a
    [TypeError] that does the same. *)
Theorem malformed_message_changes_nothing (event_data : jsstring) (p : page) :
  malformed event_data ->
  fst (onmessage event_data (map_state p)) =
    match JSON.parse event_data with
    | Throw _ => Throw SyntaxError
    | Normal VNull => Throw TypeError
    | Normal _ => Normal tt
    end /\
  map_state (dispatch_message event_data p) = map_state p /\
  socket (dispatch_message event_data p) = socket p /\
  uncaught (dispatch_message event_data p) =
    uncaught p ++
    match JSON.parse event_data with
    | Throw _ => [SyntaxError]
    | Normal VNull => [TypeError]
    | Normal _ => []
    end.
Proof.
  unfold malformed, dispatch_message. intros H.
  pose proof (JSON_parse_defined event_data) as Hd.
  destruct (JSON.parse event_data) as [v|e] eqn:E.
  - rewrite (onmessage_parsed event_data v (map_state p) E).
    destruct v as [| | | | | |props]; try congruence;
      cbn [get_member fst map_state socket uncaught strict_equals_string];
      rewrite ?app_nil_r; try (repeat split; reflexivity).
    unfold has_type_field in H.
    destruct (own_property props (js "type")); [discriminate H|].
    cbn [strict_equals_string fst map_state socket uncaught].
    rewrite ?app_nil_r. repeat split; reflexivity.
  - pose proof (JSON_parse_throws event_data e E) as ->.
    unfold onmessage, bind, lift. rewrite E. cbn. repeat split; reflexivity.
Qed.

Lemma malformed_message_changes_nothing_witness :
  malformed (wire "{'entities': []}") /\
  fst (onmessage (wire "{'entities': []}") (map_state DOMContentLoaded)) =
    Normal tt /\
  map_state (dispatch_message (wire "{'entities': []}") DOMContentLoaded) =
    map_state DOMContentLoaded /\
  socket (dispatch_message (wire "{'entities': []}") DOMContentLoaded) =
    socket DOMContentLoaded /\
  uncaught (dispatch_message (wire "{'entities': []}") DOMContentLoaded) =
    uncaught DOMContentLoaded ++ [].
Proof.
  split; [reflexivity|].
  exact (malformed_message_changes_nothing
           (wire "{'entities': []}") DOMContentLoaded eq_refl).
Defined.

(** C7. A message that parses to an object whose [type] is anything but
    the string [entity_update] is ignored: the handler returns normally,
    applies no snapshot, and map, socket and uncaught exceptions are as
    before. *)
Theorem other_message_types_ignored
  (event_data : jsstring) (props : list (jsstring * value)) (t : value)
  (p : page) :
  JSON.parse event_data = Normal (VObj props) ->
  own_property props (js "type") = Some t ->
  t <> VStr (js "entity_update") ->
  onmessage event_data (map_state p) = (Normal tt, map_state p) /\
  dispatch_message event_data p = p.
Proof.
  intros Hparse Htype Hother.
  assert (R : onmessage event_data (map_state p) = (Normal tt, map_state p)).
  { rewrite (onmessage_parsed event_data _ _ Hparse).
    unfold get_member at 1. rewrite Htype.
    rewrite (strict_equals_other t "entity_update" Hother). reflexivity. }
  split; [exact R|]. unfold dispatch_message. rewrite R. apply page_eta.
Qed.

Lemma other_message_types_ignored_witness :
  exists props t,
    JSON.parse (wire "{'type': 'heartbeat', 'entities': [1]}") =
      Normal (VObj props) /\
    own_property props (js "type") = Some t /\
    t <> VStr (js "entity_update") /\
    onmessage (wire "{'type': 'heartbeat', 'entities': [1]}")
              (map_state DOMContentLoaded) =
      (Normal tt, map_state DOMContentLoaded) /\
    dispatch_message (wire "{'type': 'heartbeat', 'entities': [1]}")
                     DOMContentLoaded = DOMContentLoaded.
Proof.
  exists [(js "type", VStr (js "heartbeat"));
          (js "entities", VArr [VNum (int_literal 1)])],
         (VStr (js "heartbeat")).
  assert (H1 : JSON.parse (wire "{'type': 'heartbeat', 'entities': [1]}") =
               Normal (VObj [(js "type", VStr (js "heartbeat"));
                             (js "entities", VArr [VNum (int_literal 1)])]))
    by reflexivity.
  assert (H2 : own_property [(js "type", VStr (js "heartbeat"));
                             (js "entities", VArr [VNum (int_literal 1)])]
                            (js "type") = Some (VStr (js "heartbeat")))
    by reflexivity.
  assert (H3 : VStr (js "heartbeat") <> VStr (js "entity_update"))
    by discriminate.
  split; [exact H1|]. split; [exact H2|]. split; [exact H3|].
  exact (other_message_types_ignored _ _ _ DOMContentLoaded H1 H2 H3).
Defined.

(** * Further properties of the code *)

(** ** updateEntities on other arguments *)

Lemma is_array_false (v : value) :
  is_array v = false -> forall es, v <> VArr es.
Proof. intros H es ->. discriminate H. Qed.

(** X1. Called with anything but an array ([undefined], [null], an
    object, a string, ...), [updateEntities] has already removed every
    mesh when the call of [forEach] raises a [TypeError]: the scene is
    left with its other children only, and nothing was created. *)
Theorem non_array_update_clears_and_raises (v : value) (w : world) :
  is_array v = false ->
  fst (updateEntities v w) = Throw TypeError /\
  children (snd (updateEntities v w)) = others w /\
  meshes (snd (updateEntities v w)) = [] /\
  allocated (snd (updateEntities v w)) = allocated w.
Proof.
  intros H.
  rewrite (updateEntities_not_array v w (is_array_false v H)).
  cbn [fst snd children allocated]. repeat split.
  unfold meshes, others. cbn [children]. apply others_have_no_mesh.
Qed.

Lemma non_array_update_clears_and_raises_witness :
  let shown := snd (updateEntities (VArr [sample_entity "e1" 1 2 3 "idle"])
                                   initial) in
  List.length (meshes shown) = 1 /\
  fst (updateEntities (VObj []) shown) = Throw TypeError /\
  children (snd (updateEntities (VObj []) shown)) = others shown /\
  meshes (snd (updateEntities (VObj []) shown)) = [] /\
  allocated (snd (updateEntities (VObj []) shown)) = allocated shown.
Proof.
  split; [reflexivity|].
  exact (non_array_update_clears_and_raises
           (VObj [])
           (snd (updateEntities (VArr [sample_entity "e1" 1 2 3 "idle"])
                                initial))
           eq_refl).
Defined.

Lemma entity_look_of_run (e : value) (w0 : world) (er : error) :
  fst (createEntityMesh e w0) = Throw er -> entity_look e = Throw er.
Proof.
  rewrite createEntityMesh_run. cbn [fst].
  destruct (entity_look e) as [[p c]|er']; [discriminate|].
  intros [= ->]. reflexivity.
Qed.

Lemma new_meshes_stop (n : nat) (good rest : list value) (bad : value)
  (er : error) :
  entity_look bad = Throw er ->
  new_meshes n (good ++ bad :: rest) = new_meshes n good.
Proof.
  intros Hbad. revert n; induction good as [|e good IH]; intros n; cbn.
  - rewrite Hbad. reflexivity.
  - destruct (entity_look e); [|reflexivity]. rewrite IH. reflexivity.
Qed.

Lemma outcome_stop (good rest : list value) (bad : value) (er : error) :
  is_snapshot good -> entity_look bad = Throw er ->
  outcome (good ++ bad :: rest) = Throw er.
Proof.
  unfold is_snapshot. intros Hgood Hbad.
  induction good as [|e good IH]; cbn.
  - rewrite Hbad. reflexivity.
  - cbn in Hgood. apply andb_true_iff in Hgood as [He Hg].
    rewrite (is_entity_look e He). apply IH, Hg.
Qed.

(** X2. When [createEntityMesh] raises on one entity of the array, the
    exception leaves [updateEntities] at once: the old meshes are gone,
    the entities before the failing one have their meshes in the scene,
    the failing one and those after it have none, and the other children
    are untouched. *)
Theorem failing_entity_leaves_partial_scene
  (good rest : list value) (bad : value) (er : error) (w0 w : world) :
  is_snapshot good ->
  fst (createEntityMesh bad w0) = Throw er ->
  let w' := snd (updateEntities (VArr (good ++ bad :: rest)) w) in
  fst (updateEntities (VArr (good ++ bad :: rest)) w) = Throw er /\
  Forall2 placed_at good (meshes w') /\
  List.length (meshes w') = List.length good /\
  others w' = others w.
Proof.
  intros Hgood Hbad w'. apply entity_look_of_run in Hbad.
  assert (Hm : meshes w' = new_meshes (allocated w) good).
  { subst w'. rewrite meshes_after_update.
    apply (new_meshes_stop _ good rest bad er Hbad). }
  split.
  { rewrite updateEntities_array. cbn [fst].
    apply outcome_stop; assumption. }
  rewrite Hm. split; [apply new_meshes_placed, Hgood|]. split.
  - rewrite <- (length_map appearance), new_meshes_appearance.
    rewrite (snapshot_looks good Hgood), length_map. reflexivity.
  - apply others_after_update.
Qed.

Lemma failing_entity_leaves_partial_scene_witness :
  let entities :=
    [sample_entity "e1" 1 2 3 "idle"]
      ++ VObj [(js "status", VStr (js "active"))]
      :: [sample_entity "e3" 4 5 6 "alert"] in
  let w' := snd (updateEntities (VArr entities) initial) in
  fst (updateEntities (VArr entities) initial) = Throw TypeError /\
  Forall2 placed_at [sample_entity "e1" 1 2 3 "idle"] (meshes w') /\
  List.length (meshes w') = 1 /\
  others w' = others initial.
Proof.
  exact (failing_entity_leaves_partial_scene
           [sample_entity "e1" 1 2 3 "idle"]
           [sample_entity "e3" 4 5 6 "alert"]
           (VObj [(js "status", VStr (js "active"))])
           TypeError empty_scene initial eq_refl eq_refl).
Defined.

(** ** The scene stays well formed *)

Lemma others_refs_NoDup (w : world) :
  NoDup (map ref (children w)) -> NoDup (map ref (others w)).
Proof.
  unfold others. induction (children w) as [|o l IH]; cbn; intros H.
  - constructor.
  - inversion_clear H as [|? ? Hnot Hl].
    destruct (is_Mesh o); cbn; [apply IH, Hl|].
    constructor; [|apply IH, Hl].
    intros Hin. apply Hnot. apply in_map_iff in Hin as (o' & Href & Hin).
    apply filter_In in Hin as [Hin _].
    apply in_map_iff. exists o'. split; assumption.
Qed.

Lemma others_refs_below (w : world) (o : Object3D) :
  refs_allocated w -> In o (others w) -> ref o < allocated w.
Proof.
  unfold refs_allocated, others. rewrite Forall_forall.
  intros H Ho. apply filter_In in Ho as [Ho _]. apply H, Ho.
Qed.

Lemma update_keeps_well_formed (v : value) (w : world) :
  scene_well_formed w -> scene_well_formed (snd (updateEntities v w)).
Proof.
  intros [Hr Hn]. split; [apply update_keeps_refs_allocated, Hr|].
  pose proof (others_refs_NoDup w Hn) as Ho.
  destruct v as [| | | | |es|];
    try (rewrite updateEntities_not_array by discriminate; exact Ho).
  rewrite updateEntities_array. cbn [snd children].
  rewrite map_app. apply NoDup_app; [exact Ho| |].
  - rewrite new_meshes_refs. apply seq_NoDup.
  - intros r Hin Hin'.
    apply in_map_iff in Hin as (o & <- & Hin).
    apply (others_refs_below w o Hr) in Hin.
    rewrite new_meshes_refs in Hin'. apply in_seq in Hin'. lia.
Qed.

(** X3. [updateEntities] keeps the scene well formed, whatever it is
    called with and whether or not it raises: every object in the scene
    is one the engine created, and no object is in the scene twice. *)
Theorem update_preserves_well_formed_scene (v : value) (w : world) :
  scene_well_formed w ->
  scene_well_formed (snd (updateEntities v w)) /\
  allocated w <= allocated (snd (updateEntities v w)).
Proof.
  intros H. split; [apply update_keeps_well_formed, H|].
  destruct v as [| | | | |es|];
    try (rewrite updateEntities_not_array by discriminate; cbn; lia).
  rewrite updateEntities_array. cbn. lia.
Qed.

Lemma initial_well_formed : scene_well_formed initial.
Proof.
  split.
  - unfold refs_allocated. cbn. repeat constructor.
  - cbn. repeat constructor; cbn; intuition discriminate.
Defined.

Lemma update_preserves_well_formed_scene_witness :
  scene_well_formed initial /\
  scene_well_formed
    (snd (updateEntities (VArr [sample_entity "e1" 1 2 3 "idle"; VNull])
                         initial)) /\
  allocated initial <=
  allocated (snd (updateEntities
                    (VArr [sample_entity "e1" 1 2 3 "idle"; VNull])
                    initial)).
Proof.
  split; [exact initial_well_formed|].
  exact (update_preserves_well_formed_scene
           (VArr [sample_entity "e1" 1 2 3 "idle"; VNull]) initial
           initial_well_formed).
Defined.

(** ** createEntityMesh *)

Lemma entity_allocations_bound (e : value) : entity_allocations e <= 1.
Proof.
  unfold entity_allocations, createEntityMesh, bind, lift, new_Object3D, ret.
  cbn [children allocated empty_scene].
  destruct (get_member e "status") as [st|]; cbn; [|lia].
  destruct (getEntityColor st) as [col|]; cbn; [|lia].
  destruct (get_member e "coordinates") as [c|]; cbn; [|lia].
  destruct (get_member c "x"); cbn; [|lia].
  destruct (get_member c "y"); cbn; [|lia].
  destruct (get_member c "z"); cbn; lia.
Qed.

(** X4. [createEntityMesh] never touches the scene: its children are the
    same afterwards, whether it returns or raises. It creates at most
    one object, and a mesh it returns is that new object, of type
    [Mesh], which is not in the scene yet. *)
Theorem createEntityMesh_leaves_scene (e : value) (w : world) :
  refs_allocated w ->
  children (snd (createEntityMesh e w)) = children w /\
  allocated w <= allocated (snd (createEntityMesh e w)) <= S (allocated w) /\
  forall m, fst (createEntityMesh e w) = Normal m ->
    ref m = allocated w /\ is_Mesh m = true /\
    allocated (snd (createEntityMesh e w)) = S (allocated w) /\
    ~ In m (children w).
Proof.
  intros Hw. rewrite createEntityMesh_run. cbn [fst snd children allocated].
  split; [reflexivity|]. split.
  - pose proof (entity_allocations_bound e). lia.
  - intros m Hm. destruct (entity_look e) as [[p c]|er] eqn:E;
      [|discriminate Hm].
    injection Hm as <-. cbn [ref].
    rewrite (entity_look_allocates e _ E).
    repeat split; [lia|].
    intros Hin. unfold refs_allocated in Hw. rewrite Forall_forall in Hw.
    apply Hw in Hin. cbn in Hin. lia.
Qed.

Lemma createEntityMesh_leaves_scene_witness :
  children (snd (createEntityMesh (sample_entity "e1" 1 2 3 "idle") initial))
    = children initial /\
  allocated initial <=
    allocated (snd (createEntityMesh (sample_entity "e1" 1 2 3 "idle")
                                     initial))
    <= S (allocated initial) /\
  forall m,
    fst (createEntityMesh (sample_entity "e1" 1 2 3 "idle") initial)
      = Normal m ->
    ref m = allocated initial /\ is_Mesh m = true /\
    allocated (snd (createEntityMesh (sample_entity "e1" 1 2 3 "idle")
                                     initial)) = S (allocated initial) /\
    ~ In m (children initial).
Proof.
  apply createEntityMesh_leaves_scene.
  unfold refs_allocated. cbn. repeat constructor.
Defined.

(** X5. An entity that has a string [status] but no [coordinates] makes
    [createEntityMesh] raise a [TypeError]. By then the mesh object has
    been created: one object is used up and dropped, and the scene is as
    it was. *)
Theorem missing_coordinates_raise
  (e : value) (s : jsstring) (c : value) (w : world) :
  get_member e "status" = Normal (VStr s) ->
  get_member e "coordinates" = Normal c ->
  c = VUndefined \/ c = VNull ->
  createEntityMesh e w =
  (Throw TypeError,
   {| children := children w; allocated := S (allocated w) |}).
Proof.
  intros Hs Hc Hnone.
  unfold createEntityMesh, bind, lift, new_Object3D. rewrite Hs.
  rewrite getEntityColor_string, Hc.
  destruct Hnone as [-> | ->]; reflexivity.
Qed.

Lemma missing_coordinates_raise_witness :
  createEntityMesh
    (VObj [(js "id", VStr (js "e1")); (js "status", VStr (js "idle"))])
    initial =
  (Throw TypeError,
   {| children := children initial; allocated := S (allocated initial) |}).
Proof.
  apply (missing_coordinates_raise
           (VObj [(js "id", VStr (js "e1")); (js "status", VStr (js "idle"))])
           (js "idle") VUndefined initial);
    [reflexivity | reflexivity | left; reflexivity].
Defined.

Lemma same_fields_run (e1 e2 : value) (w : world) :
  same_fields_read e1 e2 -> createEntityMesh e1 w = createEntityMesh e2 w.
Proof.
  intros [Hs Hc]. unfold createEntityMesh, bind, lift. rewrite Hs, Hc.
  reflexivity.
Qed.

Lemma same_fields_look (e1 e2 : value) :
  same_fields_read e1 e2 -> entity_look e1 = entity_look e2.
Proof.
  intros H. unfold entity_look. rewrite (same_fields_run e1 e2 _ H).
  reflexivity.
Qed.

Lemma same_fields_allocations (e1 e2 : value) :
  same_fields_read e1 e2 -> entity_allocations e1 = entity_allocations e2.
Proof.
  intros H. unfold entity_allocations. rewrite (same_fields_run e1 e2 _ H).
  reflexivity.
Qed.

(** X6. Only [status] and [coordinates] of an entity are ever read: two
    arrays whose entities agree, one by one, on these two fields give
    the same completion and the very same scene, whatever their [id]s
    and other fields are. *)
Theorem update_reads_status_and_coordinates_only
  (es1 es2 : list value) (w : world) :
  Forall2 same_fields_read es1 es2 ->
  updateEntities (VArr es1) w = updateEntities (VArr es2) w.
Proof.
  intros H. rewrite !updateEntities_array.
  assert (E : outcome es1 = outcome es2 /\
              (forall n, new_meshes n es1 = new_meshes n es2) /\
              allocations es1 = allocations es2).
  { induction H as [|e1 e2 l1 l2 He _ (IHo & IHn & IHa)]; cbn.
    - repeat split.
    - rewrite (same_fields_look e1 e2 He),
        (same_fields_allocations e1 e2 He).
      destruct (entity_look e2); [|repeat split].
      split; [exact IHo|]. split.
      + intros n. rewrite IHn. reflexivity.
      + rewrite IHa. reflexivity. }
  destruct E as (-> & En & ->). rewrite En. reflexivity.
Qed.

Lemma update_reads_status_and_coordinates_only_witness :
  updateEntities
    (VArr [sample_entity "e1" 1 2 3 "idle"; sample_entity "e2" 0 0 0 "alert"])
    initial =
  updateEntities
    (VArr [sample_entity "same" 1 2 3 "idle";
           sample_entity "same" 0 0 0 "alert"])
    initial.
Proof.
  apply update_reads_status_and_coordinates_only.
  repeat constructor.
Defined.

(** ** Order of the meshes *)

Lemma looks_app (a b : list value) :
  is_snapshot a -> looks (a ++ b) = looks a ++ looks b.
Proof.
  unfold is_snapshot. induction a as [|e a IH]; cbn; [reflexivity|].
  rewrite andb_true_iff. intros [He Ha].
  rewrite (is_entity_look e He), IH by assumption. reflexivity.
Qed.

(** X7. The meshes follow the order of the array: after an update with
    [a ++ b], where [a] is a snapshot of well-formed entities, the scene
    shows what an update with [a] shows, followed by what an update with
    [b] shows. *)
Theorem meshes_follow_array_order (a b : list value) (w wa wb : world) :
  is_snapshot a ->
  map appearance (meshes (snd (updateEntities (VArr (a ++ b)) w))) =
  map appearance (meshes (snd (updateEntities (VArr a) wa))) ++
  map appearance (meshes (snd (updateEntities (VArr b) wb))).
Proof.
  intros Ha. rewrite !appearance_after_update. apply looks_app, Ha.
Qed.

Lemma meshes_follow_array_order_witness :
  map appearance
    (meshes (snd (updateEntities
                    (VArr ([sample_entity "e1" 1 2 3 "idle"]
                             ++ [sample_entity "e2" 0 0 0 "alert"]))
                    initial))) =
  map appearance
    (meshes (snd (updateEntities (VArr [sample_entity "e1" 1 2 3 "idle"])
                                 empty_scene))) ++
  map appearance
    (meshes (snd (updateEntities (VArr [sample_entity "e2" 0 0 0 "alert"])
                                 initial))).
Proof.
  apply meshes_follow_array_order. reflexivity.
Defined.

(** ** clearEntities and init *)

(** X8. [clearEntities] never raises and creates nothing; afterwards the
    scene has no mesh and exactly its former other children, in order,
    and a second call changes nothing more. *)
Theorem clearEntities_idempotent (w : world) :
  let w' := snd (clearEntities w) in
  fst (clearEntities w) = Normal tt /\
  meshes w' = [] /\
  others w' = others w /\
  allocated w' = allocated w /\
  clearEntities w' = (Normal tt, w').
Proof.
  unfold clearEntities, meshes, others. cbn [fst snd children allocated].
  repeat split.
  - apply others_have_no_mesh.
  - apply others_idempotent.
  - rewrite others_idempotent. reflexivity.
Qed.

(** X9. [init] adds the ambient and the directional light, in this
    order, after the children the scene already has. Both are new
    objects and neither is a mesh, so the meshes are as before and a
    well-formed scene stays well formed. *)
Theorem init_adds_two_lights (w : world) :
  scene_well_formed w ->
  exists ambientLight directionalLight,
    init w =
      (Normal tt,
       {| children := children w ++ [ambientLight; directionalLight];
          allocated := S (S (allocated w)) |}) /\
    type ambientLight = js "AmbientLight" /\
    type directionalLight = js "DirectionalLight" /\
    ref ambientLight = allocated w /\
    ref directionalLight = S (allocated w) /\
    meshes (snd (init w)) = meshes w /\
    scene_well_formed (snd (init w)).
Proof.
  intros [Hr Hn]. unfold init, bind, new_Object3D, scene_add.
  cbn [fst snd children allocated].
  do 2 eexists. split.
  { rewrite <- app_assoc. reflexivity. }
  cbn [type ref]. repeat split.
  - unfold meshes. cbn [children]. rewrite <- app_assoc, filter_app.
    cbn. apply app_nil_r.
  - unfold refs_allocated in *. cbn [children allocated].
    rewrite <- app_assoc. apply Forall_app. split.
    + eapply Forall_impl; [|exact Hr]. cbn; intros; lia.
    + repeat constructor; cbn; lia.
  - cbn [children]. rewrite <- app_assoc, map_app.
    unfold refs_allocated in Hr. rewrite Forall_forall in Hr.
    apply NoDup_app; [exact Hn| |].
    + cbn. repeat constructor; cbn; [lia | tauto].
    + intros r Hin Hin'. apply in_map_iff in Hin as (o & <- & Hin).
      apply Hr in Hin. cbn in Hin'. lia.
Qed.

Lemma init_adds_two_lights_witness :
  exists ambientLight directionalLight,
    init empty_scene =
      (Normal tt,
       {| children := children empty_scene
                        ++ [ambientLight; directionalLight];
          allocated := S (S (allocated empty_scene)) |}) /\
    type ambientLight = js "AmbientLight" /\
    type directionalLight = js "DirectionalLight" /\
    ref ambientLight = allocated empty_scene /\
    ref directionalLight = S (allocated empty_scene) /\
    meshes (snd (init empty_scene)) = meshes empty_scene /\
    scene_well_formed (snd (init empty_scene)).
Proof.
  apply init_adds_two_lights.
  split; [constructor | constructor].
Defined.

(** ** getEntityColor on every kind of status *)

Lemma own_property_In (props : list (jsstring * value)) (k : jsstring)
  (v : value) :
  own_property props k = Some v -> In (k, v) props.
Proof.
  induction props as [|[k' v'] rest IH]; cbn; [discriminate|].
  destruct (str_eqb k' k) eqn:E.
  - apply str_eqb_eq in E. intros [= ->]. left. congruence.
  - intros H. right. apply IH, H.
Qed.

Lemma inherited_In (table : list (jsstring * jsstring)) (k b : jsstring) :
  inherited table k = Some b -> In (k, b) table.
Proof.
  induction table as [|[k' b'] rest IH]; cbn; [discriminate|].
  destruct (str_eqb k' k) eqn:E.
  - apply str_eqb_eq in E. intros [= ->]. left. congruence.
  - intros H. right. apply IH, H.
Qed.

Lemma listed_color_not_gray (s : jsstring) (v : value) :
  own_property colors s = Some v ->
  ToBoolean (Data v) = true /\ Data v <> gray.
Proof.
  intros H. apply own_property_In in H. cbn in H.
  destruct H as [H|[H|[H|[]]]]; injection H as _ <-;
    (split; [reflexivity | discriminate]).
Qed.

(** X10. For a status that is a string, [getEntityColor] returns the
    default gray exactly when the string is neither a key of [colors]
    nor the name of a property inherited from [Object.prototype]. *)
Theorem gray_exactly_for_unnamed_status (s : jsstring) :
  getEntityColor (VStr s) = Normal gray <->
  own_property colors s = None /\ inherited Object_prototype s = None.
Proof.
  rewrite getEntityColor_string. unfold Get. split.
  - destruct (own_property colors s) as [v|] eqn:Eo.
    + destruct (listed_color_not_gray s v Eo) as [Ht Hg].
      rewrite Ht. intros [= H]. exfalso. apply Hg. rewrite H. reflexivity.
    + destruct (inherited Object_prototype s); [discriminate|].
      intros _. split; reflexivity.
  - intros [-> ->]. reflexivity.
Qed.

Lemma digits_are_digits (u : Decimal.uint) :
  Forall (fun c => number_char c = true) (js (NilEmpty.string_of_uint u)).
Proof.
  induction u; cbn; constructor; try reflexivity; assumption.
Qed.

Lemma strip_leading_zeros_chars (P : N -> Prop) (l : jsstring) :
  Forall P l -> Forall P (strip_leading_zeros l).
Proof.
  induction 1 as [|c l Hc Hl IH]; cbn; [constructor|].
  destruct (is_char c "0"); [assumption | constructor; assumption].
Qed.

Lemma firstn_skipn_chars (P : N -> Prop) (n : nat) (l : jsstring) :
  Forall P l -> Forall P (firstn n l) /\ Forall P (skipn n l).
Proof.
  intros H. rewrite <- (firstn_skipn n l) in H.
  apply Forall_app in H. exact H.
Qed.

Lemma zeros_chars (n : nat) :
  Forall (fun c => number_char c = true) (zeros n).
Proof.
  unfold zeros. apply Forall_forall. intros c Hc.
  apply repeat_spec in Hc. subst c. reflexivity.
Qed.

Lemma exponent_suffix_chars (e : Z) :
  Forall (fun c => number_char c = true) (exponent_suffix e).
Proof.
  unfold exponent_suffix. repeat (apply Forall_app; split).
  - repeat constructor.
  - destruct (Z.ltb e 0); repeat constructor.
  - unfold digits_of_Z, digits_of_pos. destruct (Z.abs e) as [|p|p].
    + repeat constructor.
    + apply digits_are_digits.
    + apply Forall_app; split; [repeat constructor | apply digits_are_digits].
Qed.

Lemma Number_toString_chars (n : number) :
  Forall (fun c => number_char c = true) (Number_toString n).
Proof.
  unfold Number_toString.
  assert (K : forall p,
    Forall (fun c => number_char c = true)
      ((if Z.ltb (mantissa n) 0 then js "-" else []) ++
       (let all := digits_of_pos p in
        let s := strip_trailing_zeros all in
        let k := Z.of_nat (List.length s) in
        let m := (Z.of_nat (List.length all) + exponent10 n)%Z in
        if (k <=? m)%Z && (m <=? 21)%Z then s ++ zeros (Z.to_nat (m - k))
        else if (0 <? m)%Z && (m <=? 21)%Z then
          firstn (Z.to_nat m) s ++ js "." ++ skipn (Z.to_nat m) s
        else if (-6 <? m)%Z && (m <=? 0)%Z then
          js "0." ++ zeros (Z.to_nat (- m)) ++ s
        else
          match s with
          | [] => []
          | [d] => [d] ++ exponent_suffix (m - 1)
          | d :: (_ :: _) as ds => [d] ++ js "." ++ ds ++ exponent_suffix (m - 1)
          end))).
  { intros p. cbn zeta.
    assert (Hs : Forall (fun c => number_char c = true)
                        (strip_trailing_zeros (digits_of_pos p))).
    { unfold strip_trailing_zeros. apply Forall_rev.
      apply strip_leading_zeros_chars, Forall_rev.
      unfold digits_of_pos. apply digits_are_digits. }
    set (s := strip_trailing_zeros (digits_of_pos p)) in *.
    apply Forall_app; split.
    { destruct (Z.ltb (mantissa n) 0); repeat constructor. }
    repeat match goal with
           | |- context [if ?b then _ else _] => destruct b
           end.
    - apply Forall_app; split; [exact Hs | apply zeros_chars].
    - destruct (firstn_skipn_chars _ (Z.to_nat
        (Z.of_nat (List.length (digits_of_pos p)) + exponent10 n)) s Hs)
        as [Hf Hk].
      apply Forall_app; split; [exact Hf|].
      apply Forall_app; split; [repeat constructor | exact Hk].
    - apply Forall_app; split; [repeat constructor|].
      apply Forall_app; split; [apply zeros_chars | exact Hs].
    - destruct s as [|d [|d' ds]]; [constructor | |].
      + inversion_clear Hs.
        constructor; [assumption | apply exponent_suffix_chars].
      + inversion_clear Hs as [|? ? Hd Hds].
        constructor; [assumption|].
        apply Forall_app; split; [repeat constructor|].
        apply Forall_app; split; [exact Hds | apply exponent_suffix_chars]. }
  destruct (mantissa n) as [|p|p] eqn:Em.
  - repeat constructor.
  - apply K.
  - apply K.
Qed.

Lemma names_have_a_letter :
  forallb (fun name => existsb (fun c => negb (number_char c)) name)
          (map fst colors ++ map fst Object_prototype) = true.
Proof. reflexivity. Qed.

Lemma number_chars_unnamed (key : jsstring) :
  Forall (fun c => number_char c = true) key ->
  own_property colors key = None /\ inherited Object_prototype key = None.
Proof.
  intros Hkey.
  assert (Hno : ~ In key (map fst colors ++ map fst Object_prototype)).
  { intros Hin. pose proof names_have_a_letter as H.
    rewrite forallb_forall in H. apply H in Hin.
    apply existsb_exists in Hin as (c & Hc & Hneg).
    rewrite Forall_forall in Hkey. rewrite (Hkey c Hc) in Hneg.
    discriminate Hneg. }
  split.
  - destruct (own_property colors key) as [v|] eqn:E; [|reflexivity].
    exfalso. apply Hno, in_app_iff. left.
    apply own_property_In in E. apply (in_map fst) in E. exact E.
  - destruct (inherited Object_prototype key) as [b|] eqn:E; [|reflexivity].
    exfalso. apply Hno, in_app_iff. right.
    apply inherited_In in E. apply (in_map fst) in E. exact E.
Qed.

(** X11. A status that is not a string but [undefined] (the field is
    missing), [null], a boolean or a number of any value is converted to
    its printed form for the lookup, finds nothing, and gets the default
    gray without an exception. *)
Theorem plain_non_string_status_gray (status : value) :
  is_plain_non_string status = true ->
  getEntityColor status = Normal gray.
Proof.
  destruct status as [| |[|]|n| | |]; try discriminate; intros _;
    try reflexivity.
  unfold getEntityColor. cbn [ToString].
  destruct (number_chars_unnamed _ (Number_toString_chars n)) as [Ho Hi].
  unfold Get. rewrite Ho, Hi. reflexivity.
Qed.

Lemma plain_non_string_status_gray_witness :
  getEntityColor (VNum (Num (-125) (-2))) = Normal gray.
Proof.
  apply plain_non_string_status_gray. reflexivity.
Defined.

Lemma join_throws (parts : list (completion jsstring)) (e : error) :
  join parts = Throw e -> In (Throw e) parts.
Proof.
  induction parts as [|[p|e'] rest IH]; cbn; [discriminate | |].
  - destruct rest as [|r rest']; [discriminate|].
    destruct (join (r :: rest')) as [j|e'']; [discriminate|].
    intros [= ->]. right. apply IH. reflexivity.
  - intros [= ->]. left. reflexivity.
Qed.

(** Induction on values, with the elements of an array as smaller
    values. *)
Lemma value_nested_ind (P : value -> Prop) :
  P VUndefined -> P VNull -> (forall b, P (VBool b)) ->
  (forall n, P (VNum n)) -> (forall s, P (VStr s)) ->
  (forall elems, Forall P elems -> P (VArr elems)) ->
  (forall props, P (VObj props)) ->
  forall v, P v.
Proof.
  intros Hu Hn Hb Hnum Hs Ha Ho.
  fix IH 1. intros [| |b|n|s|elems|props].
  - exact Hu.
  - exact Hn.
  - apply Hb.
  - apply Hnum.
  - apply Hs.
  - apply Ha. revert elems. fix IHelems 1.
    intros [|a elems]; constructor; [apply IH | apply IHelems].
  - apply Ho.
Qed.

Lemma ToString_throws (v : value) (e : error) :
  ToString v = Throw e -> e = TypeError.
Proof.
  revert e. induction v as [| |b|n|s|elems IH|props] using value_nested_ind;
    intros e; cbn [ToString]; try discriminate.
  - destruct b; discriminate.
  - intros H. apply join_throws in H.
    apply in_map_iff in H as (a & Ha & Hin).
    rewrite Forall_forall in IH.
    destruct a; try discriminate Ha; eapply (IH _ Hin); exact Ha.
  - destruct (own_property props (js "toString")); [|discriminate].
    intros [= <-]. reflexivity.
Qed.

(** X12. Whatever the status is, [getEntityColor] never returns a falsy
    value, [undefined] in particular: it returns a color of [colors],
    the default, or an inherited object. The only exception it can
    raise is a [TypeError], and only for a status that is an array or an
    object. *)
Theorem getEntityColor_result (status : value) :
  match getEntityColor status with
  | Normal c => ToBoolean c = true
  | Throw e =>
    e = TypeError /\
    is_plain_non_string status = false /\ forall s, status <> VStr s
  end.
Proof.
  unfold getEntityColor.
  destruct (ToString status) as [key|e] eqn:E.
  - destruct (ToBoolean (Get colors key)) eqn:B; [exact B | reflexivity].
  - split; [apply (ToString_throws status e E)|].
    destruct status as [| |[|]| | | |]; try discriminate E;
      (split; [reflexivity | discriminate]).
Qed.

(** ** The handler on update messages *)

Lemma onmessage_update (event_data : jsstring)
  (props : list (jsstring * value)) (w : world) :
  JSON.parse event_data = Normal (VObj props) ->
  own_property props (js "type") = Some (VStr (js "entity_update")) ->
  onmessage event_data w =
  updateEntities
    (match own_property props (js "entities") with
     | Some v => v
     | None => VUndefined
     end) w.
Proof.
  intros Hp Ht. rewrite (onmessage_parsed event_data _ w Hp).
  unfold get_member. rewrite Ht. cbn [strict_equals_string].
  rewrite str_eqb_refl.
  destruct (own_property props (js "entities")); reflexivity.
Qed.

(** X13. A message that parses to an object with [type] equal to
    [entity_update] and an array of well-formed entities under
    [entities] is handled as [updateEntities] on that array: the handler
    returns normally and the scene then has one mesh per entity, in
    order, at the entity's coordinates, next to its former other
    children. *)
Theorem update_message_applies_snapshot
  (event_data : jsstring) (props : list (jsstring * value))
  (es : list value) (w : world) :
  JSON.parse event_data = Normal (VObj props) ->
  own_property props (js "type") = Some (VStr (js "entity_update")) ->
  own_property props (js "entities") = Some (VArr es) ->
  is_snapshot es ->
  onmessage event_data w = updateEntities (VArr es) w /\
  fst (onmessage event_data w) = Normal tt /\
  Forall2 placed_at es (meshes (snd (onmessage event_data w))) /\
  others (snd (onmessage event_data w)) = others w.
Proof.
  intros Hp Ht He Hs.
  rewrite (onmessage_update event_data props w Hp Ht), He.
  split; [reflexivity|]. split.
  { rewrite (update_snapshot es w Hs). reflexivity. }
  split.
  - rewrite meshes_after_update. apply new_meshes_placed, Hs.
  - apply others_after_update.
Qed.

Lemma update_message_applies_snapshot_witness :
  let message :=
    wire ("{'entities': [{'coordinates': {'x': 1, 'y': 2, 'z': 3}, " ++
          "'status': 'idle', 'id': 'e1'}], 'type': 'entity_update'}") in
  onmessage message initial =
    updateEntities (VArr [VObj [ (js "coordinates",
                                  VObj [ (js "x", VNum (int_literal 1));
                                         (js "y", VNum (int_literal 2));
                                         (js "z", VNum (int_literal 3)) ]);
                                 (js "status", VStr (js "idle"));
                                 (js "id", VStr (js "e1")) ]]) initial /\
  fst (onmessage message initial) = Normal tt /\
  Forall2 placed_at
    [VObj [ (js "coordinates",
             VObj [ (js "x", VNum (int_literal 1));
                    (js "y", VNum (int_literal 2));
                    (js "z", VNum (int_literal 3)) ]);
            (js "status", VStr (js "idle"));
            (js "id", VStr (js "e1")) ]]
    (meshes (snd (onmessage message initial))) /\
  others (snd (onmessage message initial)) = others initial.
Proof.
  cbn zeta.
  eapply update_message_applies_snapshot; reflexivity.
Defined.

(** X14. A message of [type] [entity_update] whose [entities] is missing
    or is not an array is not dropped: the handler has removed every
    mesh from the scene when the [TypeError] leaves it. *)
Theorem update_message_without_array_clears
  (event_data : jsstring) (props : list (jsstring * value)) (w : world) :
  JSON.parse event_data = Normal (VObj props) ->
  own_property props (js "type") = Some (VStr (js "entity_update")) ->
  match own_property props (js "entities") with
  | Some v => is_array v = false
  | None => True
  end ->
  onmessage event_data w =
  (Throw TypeError, {| children := others w; allocated := allocated w |}).
Proof.
  intros Hp Ht He.
  rewrite (onmessage_update event_data props w Hp Ht).
  apply updateEntities_not_array.
  destruct (own_property props (js "entities")) as [v|].
  - apply is_array_false, He.
  - discriminate.
Qed.

Lemma update_message_without_array_clears_witness :
  let shown := snd (updateEntities (VArr [sample_entity "e1" 1 2 3 "idle"])
                                   initial) in
  List.length (meshes shown) = 1 /\
  onmessage (wire "{'type': 'entity_update', 'entities': {'e1': 1}}") shown =
  (Throw TypeError,
   {| children := others shown; allocated := allocated shown |}).
Proof.
  split; [reflexivity|].
  eapply update_message_without_array_clears; reflexivity.
Defined.

(** ** Any message, any sequence of messages *)

Lemma onmessage_cases (event_data : jsstring) (w : world) :
  (exists c, onmessage event_data w = (c, w)) \/
  (exists v, onmessage event_data w = updateEntities v w).
Proof.
  unfold onmessage, bind, lift.
  destruct (JSON.parse event_data) as [data|e]; [|left; eexists; reflexivity].
  destruct (get_member data "type") as [t|e]; [|left; eexists; reflexivity].
  destruct (strict_equals_string t "entity_update");
    [|left; eexists; reflexivity].
  destruct (get_member data "entities") as [v|e];
    [|left; eexists; reflexivity].
  right. exists v. reflexivity.
Qed.

(** X15. Whether a message makes the handler raise, and which exception,
    depends on the message alone and not on the scene. A message either
    leaves the scene exactly as it was, or gives it meshes whose number,
    order, positions and colors are determined by the message alone. *)
Theorem handler_outcome_depends_on_message
  (event_data : jsstring) (w1 w2 : world) :
  fst (onmessage event_data w1) = fst (onmessage event_data w2) /\
  ((snd (onmessage event_data w1) = w1 /\
    snd (onmessage event_data w2) = w2) \/
   map appearance (meshes (snd (onmessage event_data w1))) =
   map appearance (meshes (snd (onmessage event_data w2)))).
Proof.
  unfold onmessage, bind, lift.
  destruct (JSON.parse event_data) as [data|e];
    [|split; [reflexivity | left; split; reflexivity]].
  destruct (get_member data "type") as [t|e];
    [|split; [reflexivity | left; split; reflexivity]].
  destruct (strict_equals_string t "entity_update");
    [|split; [reflexivity | left; split; reflexivity]].
  destruct (get_member data "entities") as [v|e];
    [|split; [reflexivity | left; split; reflexivity]].
  destruct v as [| | | | |es|];
    try (rewrite !updateEntities_not_array by discriminate;
         split; [reflexivity|]; right;
         unfold meshes, others; cbn [snd children];
         rewrite !others_have_no_mesh; reflexivity).
  split.
  - rewrite !updateEntities_array. reflexivity.
  - right. rewrite !appearance_after_update. reflexivity.
Qed.

Lemma dispatch_keeps (event_data : jsstring) (p : page) :
  scene_well_formed (map_state p) ->
  scene_well_formed (map_state (dispatch_message event_data p)) /\
  others (map_state (dispatch_message event_data p)) = others (map_state p) /\
  socket (dispatch_message event_data p) = socket p /\
  allocated (map_state p) <=
    allocated (map_state (dispatch_message event_data p)) /\
  exists raised, uncaught (dispatch_message event_data p) =
                 uncaught p ++ raised /\ List.length raised <= 1.
Proof.
  intros Hw. unfold dispatch_message.
  assert (U : forall (c : completion unit) w,
    exists raised,
      uncaught (match c with
                | Normal _ => {| map_state := w; socket := socket p;
                                 uncaught := uncaught p |}
                | Throw e => {| map_state := w; socket := socket p;
                                uncaught := uncaught p ++ [e] |}
                end) = uncaught p ++ raised /\ List.length raised <= 1).
  { intros [u|e] w; cbn.
    - exists []. rewrite app_nil_r. split; [reflexivity | cbn; lia].
    - exists [e]. split; [reflexivity | cbn; lia]. }
  destruct (onmessage_cases event_data (map_state p)) as [[c H]|[v H]];
    rewrite H.
  - specialize (U c (map_state p)).
    destruct c; cbn [map_state socket] in *;
      (split; [exact Hw|]; split; [reflexivity|]; split; [reflexivity|];
       split; [lia | exact U]).
  - pose proof (update_keeps_well_formed v (map_state p) Hw) as Hk.
    pose proof (others_after_update v (map_state p)) as Ho.
    assert (Ha : allocated (map_state p) <=
                 allocated (snd (updateEntities v (map_state p)))).
    { destruct v as [| | | | |es|];
        try (rewrite updateEntities_not_array by discriminate; cbn; lia).
      rewrite updateEntities_array. cbn. lia. }
    destruct (updateEntities v (map_state p)) as [c w'].
    specialize (U c w'). cbn [snd] in *.
    destruct c; cbn [map_state socket] in *;
      (split; [exact Hk|]; split; [exact Ho|]; split; [reflexivity|];
       split; [exact Ha | exact U]).
Qed.

(** X16. Through any sequence of messages, whatever their content, the
    page keeps its invariants: the scene stays well formed, its children
    that are not meshes (the lights) are the same in the same order, the
    socket is in the state it was in, exceptions already reported stay
    reported, and at most one is added per message. *)
Theorem messages_keep_page_invariants (messages : list jsstring) (p : page) :
  scene_well_formed (map_state p) ->
  scene_well_formed (map_state (dispatch_all messages p)) /\
  others (map_state (dispatch_all messages p)) = others (map_state p) /\
  socket (dispatch_all messages p) = socket p /\
  allocated (map_state p) <= allocated (map_state (dispatch_all messages p)) /\
  exists raised, uncaught (dispatch_all messages p) = uncaught p ++ raised /\
                 List.length raised <= List.length messages.
Proof.
  revert p; induction messages as [|m rest IH]; intros p Hw.
  - cbn [dispatch_all]. split; [exact Hw|]. split; [reflexivity|].
    split; [reflexivity|]. split; [lia|].
    exists []. rewrite app_nil_r. split; [reflexivity | cbn; lia].
  - cbn [dispatch_all].
    destruct (dispatch_keeps m p Hw) as (Hw1 & Ho1 & Hs1 & Ha1 & r1 & Hu1 & Hl1).
    destruct (IH (dispatch_message m p) Hw1)
      as (Hw2 & Ho2 & Hs2 & Ha2 & r2 & Hu2 & Hl2).
    split; [exact Hw2|]. split; [congruence|]. split; [congruence|].
    split; [lia|].
    exists (r1 ++ r2). rewrite Hu2, Hu1, <- app_assoc.
    split; [reflexivity|]. rewrite length_app. cbn [List.length]. lia.
Qed.

Lemma messages_keep_page_invariants_witness :
  let messages :=
    [ wire "{'type': 'entity_update', 'entities': [{'status': 'idle'}]}";
      js "oops";
      wire "{'type': 'entity_update', 'entities': []}" ] in
  scene_well_formed (map_state DOMContentLoaded) /\
  scene_well_formed (map_state (dispatch_all messages DOMContentLoaded)) /\
  others (map_state (dispatch_all messages DOMContentLoaded)) =
    others (map_state DOMContentLoaded) /\
  socket (dispatch_all messages DOMContentLoaded) = socket DOMContentLoaded /\
  allocated (map_state DOMContentLoaded) <=
    allocated (map_state (dispatch_all messages DOMContentLoaded)) /\
  exists raised,
    uncaught (dispatch_all messages DOMContentLoaded) =
      uncaught DOMContentLoaded ++ raised /\
    List.length raised <= List.length messages.
Proof.
  cbn zeta. split; [exact initial_well_formed|].
  exact (messages_keep_page_invariants _ DOMContentLoaded
           initial_well_formed).
Defined.
